(** * A shallow embedding of the lexical analyser of [compilador.py]

    The scanner of the Pascal-like language is a Python class [Lexer] that
    walks a [str] with a cursor ([pos], [current_char]) and a line counter.
    Python characters are code points; this development covers source texts
    over the code points U+0000..U+00FF, one [ascii] per code point, with
    [str.isalpha], [str.isdigit], [str.isalnum], [str.lower] and [str.upper]
    given on that range as CPython defines them.

    Exceptions are values of [Result]; every [while] loop of the source is
    a [Fixpoint] over a fuel argument, and running out of fuel is the
    distinguished outcome [OutOfFuel], shown below never to happen with the
    fuel [get_next_token] hands out. *)

From Stdlib Require Import List Arith Lia Bool Ascii String NArith.
Import ListNotations.

Local Open Scope char_scope.
Local Open Scope list_scope.
Local Open Scope nat_scope.

(** ** Characters and strings *)

Definition str (s : string) : list ascii := list_ascii_of_string s.

Definition newline : ascii := "010".
Definition tab : ascii := "009".
Definition quote : ascii := "'".

Definition ord (c : ascii) : N := N_of_ascii c.

Definition between (lo hi n : N) : bool := ((lo <=? n) && (n <=? hi))%N.

(** [c.isalpha()]: general category L*. *)
Definition isalpha (c : ascii) : bool :=
  let n := ord c in
  (between 65 90 n || between 97 122 n
   || (n =? 170) || (n =? 181) || (n =? 186)
   || between 192 214 n || between 216 246 n || between 248 255 n)%N.

(** [c.isdecimal()]: Numeric_Type=Decimal. *)
Definition isdecimal (c : ascii) : bool := between 48 57 (ord c).

(** [c.isdigit()]: Numeric_Type=Decimal or Digit (the superscripts 1, 2, 3
    of Latin-1 are digits for Python). *)
Definition isdigit (c : ascii) : bool :=
  let n := ord c in
  (between 48 57 n || between 178 179 n || (n =? 185))%N.

(** [c.isnumeric()]: adds the vulgar fractions U+00BC..U+00BE. *)
Definition isnumeric (c : ascii) : bool :=
  isdigit c || between 188 190 (ord c).

(** [c.isalnum()] is, by definition in CPython, the disjunction below. *)
Definition isalnum (c : ascii) : bool :=
  isalpha c || isdecimal c || isdigit c || isnumeric c.

(** [c.lower()] of a one-character string; on this range the result is
    again one character of the range. *)
Definition lower (c : ascii) : ascii :=
  let n := ord c in
  if (between 65 90 n || between 192 214 n || between 216 222 n)%N
  then ascii_of_N (n + 32) else c.

(** [c.upper()] of a one-character string, as the code points of the
    result: sharp s becomes two letters, and the micro sign and y with
    diaeresis leave the range. *)
Definition upper_char (c : ascii) : list N :=
  let n := ord c in
  (if between 97 122 n then [n - 32]
   else if n =? 181 then [924]
   else if n =? 223 then [83; 83]
   else if between 224 246 n || between 248 254 n then [n - 32]
   else if n =? 255 then [376]
   else [n])%N.

(** [s.upper()]. *)
Definition upper (s : list ascii) : list N := flat_map upper_char s.

(** [c in chars] for a one-character [c]. *)
Definition char_in (c : ascii) (chars : list ascii) : bool :=
  existsb (Ascii.eqb c) chars.

(** [oc == c] where [oc] may be [None]. *)
Definition is_char (oc : option ascii) (c : ascii) : bool :=
  match oc with
  | Some c' => Ascii.eqb c' c
  | None => false
  end.

(** ** Tokens *)

Inductive TokenType : Type :=
| ID | NUM | LITERAL | CAR
| PROGRAM | VAR | BEGIN | END | IF' | THEN | ELSE | WHILE | DO
| OPASIGNA | OPREL | OPSUMA | OPMULT
| PONTO | PONTO_VIRG | VIRGULA | DOIS_PONTOS
| ABRE_PAR | FECHA_PAR | ABRE_COL | FECHA_COL
| EOF.

Record Token : Type := mkToken {
  tipo : TokenType;
  lexema : list ascii;
  linha : nat
}.

(** The dictionary [RESERVED_KEYWORDS] is keyed by code points, since the
    argument of its [get] is an uppercased string. *)
Definition codepoints (s : string) : list N := map ord (str s).

(** The entries of [RESERVED_KEYWORDS] in the order of the source. *)
Definition reserved_words : list (string * TokenType) :=
  [ ("PROGRAM", PROGRAM);
    ("VAR", VAR);
    ("BEGIN", BEGIN);
    ("END", END);
    ("IF", IF');
    ("THEN", THEN);
    ("ELSE", ELSE);
    ("WHILE", WHILE);
    ("DO", DO) ]%string.

Definition RESERVED_KEYWORDS : list (list N * TokenType) :=
  map (fun entry => (codepoints (fst entry), snd entry)) reserved_words.

Fixpoint codepoints_eqb (a b : list N) : bool :=
  match a, b with
  | [], [] => true
  | x :: a', y :: b' => (x =? y)%N && codepoints_eqb a' b'
  | _, _ => false
  end.

(** [d.get(key)]. *)
Fixpoint dict_get {V : Type} (d : list (list N * V)) (key : list N) : option V :=
  match d with
  | [] => None
  | (k, v) :: d' => if codepoints_eqb k key then Some v else dict_get d' key
  end.

(** The dictionary [single_char_tokens] of [get_next_token]. *)
Definition single_char_tokens (c : ascii) : option TokenType :=
  if Ascii.eqb c "<" then Some OPREL
  else if Ascii.eqb c ">" then Some OPREL
  else if Ascii.eqb c "=" then Some OPREL
  else if Ascii.eqb c "+" then Some OPSUMA
  else if Ascii.eqb c "-" then Some OPSUMA
  else if Ascii.eqb c "*" then Some OPMULT
  else if Ascii.eqb c "/" then Some OPMULT
  else if Ascii.eqb c ";" then Some PONTO_VIRG
  else if Ascii.eqb c "," then Some VIRGULA
  else if Ascii.eqb c "." then Some PONTO
  else if Ascii.eqb c ":" then Some DOIS_PONTOS
  else if Ascii.eqb c "(" then Some ABRE_PAR
  else if Ascii.eqb c ")" then Some FECHA_PAR
  else if Ascii.eqb c "[" then Some ABRE_COL
  else if Ascii.eqb c "]" then Some FECHA_COL
  else None.

(** ** The scanner object *)

Record Lexer : Type := mkLexer {
  source : list ascii;
  pos : nat;
  current_char : option ascii;
  line : nat
}.

(** [Lexer.__init__]. *)
Definition Lexer_init (source_code : list ascii) : Lexer :=
  {| source := source_code;
     pos := 0;
     current_char :=
       if 0 <? List.length source_code then nth_error source_code 0 else None;
     line := 1 |}.

(** The texts of the messages handed to [_error]; each constructor is one
    call site, with the values interpolated in its f-string. *)
Inductive Message : Type :=
| ComentarioChaveNaoFinalizado
| ComentarioParNaoFinalizado
| DigitoEsperadoAposPonto (lexeme : list ascii)
| SinalOuDigitoEsperadoAposE (lexeme : list ascii)
| DigitoEsperadoAposSinal (lexeme : list ascii)
| StringNaoFinalizada
| CaractereInesperado (c : ascii).

(** What a call can raise: the [Exception] built by [_error], whose text
    starts with the line number; the [TypeError] of the interpreter when
    [in] is given [None] as its left operand; its [AttributeError] when a
    method of [str] is called on [None]. *)
Inductive PyException : Type :=
| ErroLexico (linha_erro : nat) (message : Message)
| TypeError
| AttributeError.

Inductive Result (A : Type) : Type :=
| Return (a : A) (s : Lexer)
| Raise (e : PyException) (s : Lexer)
| OutOfFuel.

Arguments Return {A} a s.
Arguments Raise {A} e s.
Arguments OutOfFuel {A}.

(** The error classes of the specification, by call site of [_error]. *)
Inductive ErrorKind : Type :=
| UnterminatedComment | UnterminatedLiteral | MalformedNumber
| UnexpectedCharacter.

Definition error_kind (m : Message) : ErrorKind :=
  match m with
  | ComentarioChaveNaoFinalizado | ComentarioParNaoFinalizado =>
      UnterminatedComment
  | DigitoEsperadoAposPonto _ | SinalOuDigitoEsperadoAposE _
  | DigitoEsperadoAposSinal _ => MalformedNumber
  | StringNaoFinalizada => UnterminatedLiteral
  | CaractereInesperado _ => UnexpectedCharacter
  end.

(** [Lexer._error]. *)
Definition _error {A : Type} (message : Message) (s : Lexer) : Result A :=
  Raise (ErroLexico (line s) message) s.

(** [Lexer._advance]. *)
Definition _advance (s : Lexer) : Lexer :=
  let line' := if is_char (current_char s) newline then line s + 1 else line s in
  let pos' := pos s + 1 in
  {| source := source s;
     pos := pos';
     current_char :=
       if List.length (source s) <=? pos' then None else nth_error (source s) pos';
     line := line' |}.

(** [Lexer._peek]. *)
Definition _peek (s : Lexer) : option ascii :=
  let peek_pos := pos s + 1 in
  if List.length (source s) <=? peek_pos then None
  else nth_error (source s) peek_pos.

(** [Lexer._skip_whitespace]. *)
Fixpoint _skip_whitespace (fuel : nat) (s : Lexer) : Result unit :=
  match fuel with
  | 0 => OutOfFuel
  | S fuel' =>
      match current_char s with
      | Some c =>
          if char_in c [" "; tab; newline]
          then _skip_whitespace fuel' (_advance s)
          else Return tt s
      | None => Return tt s
      end
  end.

(** The loop of the first branch of [_skip_comment]. *)
Fixpoint skip_to_close_brace (fuel : nat) (s : Lexer) : Result unit :=
  match fuel with
  | 0 => OutOfFuel
  | S fuel' =>
      match current_char s with
      | Some c =>
          if negb (Ascii.eqb c "}")
          then skip_to_close_brace fuel' (_advance s)
          else Return tt s
      | None => Return tt s
      end
  end.

(** The loop of the second branch of [_skip_comment]. *)
Fixpoint skip_to_star_paren (fuel : nat) (s : Lexer) : Result unit :=
  match fuel with
  | 0 => OutOfFuel
  | S fuel' =>
      match current_char s with
      | Some c =>
          if Ascii.eqb c "*" && is_char (_peek s) ")"
          then Return tt s
          else skip_to_star_paren fuel' (_advance s)
      | None => Return tt s
      end
  end.

(** [Lexer._skip_comment]. *)
Definition _skip_comment (fuel : nat) (s : Lexer) : Result bool :=
  if is_char (current_char s) "{" then
    match skip_to_close_brace fuel (_advance s) with
    | Return _ s1 =>
        match current_char s1 with
        | None => _error ComentarioChaveNaoFinalizado s1
        | Some _ => Return true (_advance s1)
        end
    | Raise e s1 => Raise e s1
    | OutOfFuel => OutOfFuel
    end
  else if is_char (current_char s) "(" && is_char (_peek s) "*" then
    match skip_to_star_paren fuel (_advance (_advance s)) with
    | Return _ s1 =>
        match current_char s1 with
        | None => _error ComentarioParNaoFinalizado s1
        | Some _ => Return true (_advance (_advance s1))
        end
    | Raise e s1 => Raise e s1
    | OutOfFuel => OutOfFuel
    end
  else Return false s.

(** The loop of [_id_or_keyword]. *)
Fixpoint id_loop (fuel : nat) (lexeme : list ascii) (s : Lexer)
  : Result (list ascii) :=
  match fuel with
  | 0 => OutOfFuel
  | S fuel' =>
      match current_char s with
      | Some c =>
          if isalnum c
          then id_loop fuel' (lexeme ++ [c]) (_advance s)
          else Return lexeme s
      | None => Return lexeme s
      end
  end.

(** [Lexer._id_or_keyword]. *)
Definition _id_or_keyword (fuel : nat) (s : Lexer) : Result Token :=
  let start_line := line s in
  match id_loop fuel [] s with
  | Return lexeme s1 =>
      match dict_get RESERVED_KEYWORDS (upper lexeme) with
      | Some token_type => Return (mkToken token_type lexeme start_line) s1
      | None => Return (mkToken ID lexeme start_line) s1
      end
  | Raise e s1 => Raise e s1
  | OutOfFuel => OutOfFuel
  end.

(** [c and c.isdigit()]. *)
Definition and_isdigit (c : option ascii) : bool :=
  match c with
  | Some c' => isdigit c'
  | None => false
  end.

(** [c and c.lower() == 'e']. *)
Definition and_lower_is_e (c : option ascii) : bool :=
  match c with
  | Some c' => Ascii.eqb (lower c') "e"
  | None => false
  end.

(** [lexeme += c; self._advance()] for a [c] that is not [None]. *)
Definition take (c : option ascii) (lexeme : list ascii) : list ascii :=
  match c with
  | Some c' => lexeme ++ [c']
  | None => lexeme
  end.

(** The state machine of [_number]: one iteration of [while True] per unit
    of fuel.  [state] is the integer of the source; outside 0..5 no branch
    of the [if] chain is taken and the loop goes round unchanged. *)
Fixpoint number_loop (fuel : nat) (state : nat) (lexeme : list ascii)
  (s : Lexer) : Result (list ascii) :=
  match fuel with
  | 0 => OutOfFuel
  | S fuel' =>
      let c := current_char s in
      match state with
      | 0 =>
          if and_isdigit c then
            number_loop fuel' 0 (take c lexeme) (_advance s)
          else if is_char c "." then
            if is_char (_peek s) "." then Return lexeme s
            else number_loop fuel' 1 (take c lexeme) (_advance s)
          else if and_lower_is_e c then
            number_loop fuel' 3 (take c lexeme) (_advance s)
          else Return lexeme s
      | 1 =>
          if and_isdigit c then
            number_loop fuel' 2 (take c lexeme) (_advance s)
          else _error (DigitoEsperadoAposPonto lexeme) s
      | 2 =>
          if and_isdigit c then
            number_loop fuel' 2 (take c lexeme) (_advance s)
          else if and_lower_is_e c then
            number_loop fuel' 3 (take c lexeme) (_advance s)
          else Return lexeme s
      | 3 =>
          match c with
          | None => Raise TypeError s
          | Some c' =>
              if char_in c' ["+"; "-"] then
                number_loop fuel' 4 (take c lexeme) (_advance s)
              else if and_isdigit c then
                number_loop fuel' 5 (take c lexeme) (_advance s)
              else _error (SinalOuDigitoEsperadoAposE lexeme) s
          end
      | 4 =>
          if and_isdigit c then
            number_loop fuel' 5 (take c lexeme) (_advance s)
          else _error (DigitoEsperadoAposSinal lexeme) s
      | 5 =>
          if and_isdigit c then
            number_loop fuel' 5 (take c lexeme) (_advance s)
          else Return lexeme s
      | _ => number_loop fuel' state lexeme s
      end
  end.

(** [Lexer._number]. *)
Definition _number (fuel : nat) (s : Lexer) : Result Token :=
  let start_line := line s in
  match number_loop fuel 0 [] s with
  | Return lexeme s1 => Return (mkToken NUM lexeme start_line) s1
  | Raise e s1 => Raise e s1
  | OutOfFuel => OutOfFuel
  end.

(** The loop of [_string_literal]. *)
Fixpoint string_loop (fuel : nat) (content : list ascii) (s : Lexer)
  : Result (list ascii) :=
  match fuel with
  | 0 => OutOfFuel
  | S fuel' =>
      match current_char s with
      | None => _error StringNaoFinalizada s
      | Some c =>
          if Ascii.eqb c quote then
            if is_char (_peek s) quote
            then string_loop fuel' (content ++ [quote]) (_advance (_advance s))
            else Return content (_advance s)
          else string_loop fuel' (content ++ [c]) (_advance s)
      end
  end.

(** [Lexer._string_literal]. *)
Definition _string_literal (fuel : nat) (s : Lexer) : Result Token :=
  let start_line := line s in
  match string_loop fuel [] (_advance s) with
  | Return content s1 =>
      if List.length content =? 1
      then Return (mkToken CAR content start_line) s1
      else Return (mkToken LITERAL content start_line) s1
  | Raise e s1 => Raise e s1
  | OutOfFuel => OutOfFuel
  end.

(** The two-character operators of [get_next_token]: both characters are
    consumed and the token carries the fixed text. *)
Definition two_char (t : TokenType) (text : string) (s : Lexer)
  : Result Token :=
  let start_line := line s in
  Return (mkToken t (str text) start_line) (_advance (_advance s)).

(** The body of the loop of [get_next_token] from step 3 on. *)
Definition recognise (fuel : nat) (s : Lexer) : Result Token :=
  match current_char s with
  | None => Raise AttributeError s
  | Some c =>
      if isalpha c then _id_or_keyword fuel s
      else if isdigit c then _number fuel s
      else if Ascii.eqb c quote then _string_literal fuel s
      else if Ascii.eqb c ":" && is_char (_peek s) "="
      then two_char OPASIGNA ":=" s
      else if Ascii.eqb c "<" && is_char (_peek s) ">"
      then two_char OPREL "<>" s
      else if Ascii.eqb c "<" && is_char (_peek s) "="
      then two_char OPREL "<=" s
      else if Ascii.eqb c ">" && is_char (_peek s) "="
      then two_char OPREL ">=" s
      else
        match single_char_tokens c with
        | Some token_type =>
            let lexeme := [c] in
            let start_line := line s in
            Return (mkToken token_type lexeme start_line) (_advance s)
        | None => _error (CaractereInesperado c) s
        end
  end.

(** The loop of [get_next_token]. *)
Fixpoint token_loop (fuel : nat) (s : Lexer) : Result Token :=
  match fuel with
  | 0 => OutOfFuel
  | S fuel' =>
      match current_char s with
      | None => Return (mkToken EOF (str "EOF") (line s)) s
      | Some c =>
          if char_in c [" "; tab; newline] then
            match _skip_whitespace fuel' s with
            | Return _ s1 => token_loop fuel' s1
            | Raise e s1 => Raise e s1
            | OutOfFuel => OutOfFuel
            end
          else if char_in c ["{"; "("] then
            match _skip_comment fuel' s with
            | Return true s1 => token_loop fuel' s1
            | Return false s1 => recognise fuel' s1
            | Raise e s1 => Raise e s1
            | OutOfFuel => OutOfFuel
            end
          else recognise fuel' s
      end
  end.

(** Fuel that covers every loop of one call: what is left of the text,
    and two more iterations for the tests that end a loop. *)
Definition fuel_for (s : Lexer) : nat := List.length (source s) - pos s + 2.

(** [Lexer.get_next_token]. *)
Definition get_next_token (s : Lexer) : Result Token :=
  token_loop (fuel_for s) s.

(** ** The cursor as a split of the text *)

Definition count_newlines (l : list ascii) : nat :=
  count_occ ascii_dec l newline.

(** The state of a scanner that has consumed [pre] and has [suf] ahead. *)
Definition cursor (pre suf : list ascii) : Lexer :=
  {| source := pre ++ suf;
     pos := List.length pre;
     current_char := hd_error suf;
     line := 1 + count_newlines pre |}.

(** [s'] is the scanner at [cursor pre suf] moved over the prefix [raw]
    of [suf]. *)
Definition moved (pre suf raw rest : list ascii) (s' : Lexer) : Prop :=
  suf = raw ++ rest /\ s' = cursor (pre ++ raw) rest.

Definition whitespace (c : ascii) : bool := char_in c [" "; tab; newline].

(** The outcome of a call that may raise: it never runs out of fuel, and
    both a return and a raise leave the scanner further along the text. *)
Definition outcome {A : Type} (pre suf : list ascii)
  (post : A -> list ascii -> list ascii -> Prop) (r : Result A) : Prop :=
  match r with
  | Return a s' => exists raw rest, moved pre suf raw rest s' /\ post a raw rest
  | Raise e s' => exists raw rest, moved pre suf raw rest s'
  | OutOfFuel => False
  end.

(** The characters a number can be made of. *)
Definition number_char (c : ascii) : bool :=
  isdigit c || Ascii.eqb c "." || Ascii.eqb (lower c) "e" || char_in c ["+"; "-"].

(** Decoding of a quoted literal as section 4.5 of the specification words
    it, on the text that follows the opening quote: a quote followed by a
    quote stands for one quote, a quote followed by anything else closes the
    literal, every other character stands for itself.  The result is the
    decoded content and the text left after the closing quote; [None] when
    the text ends before a closing quote. *)
Fixpoint decode (body : list ascii) : option (list ascii * list ascii) :=
  match body with
  | [] => None
  | c :: body' =>
      if Ascii.eqb c quote then
        match body' with
        | c' :: body'' =>
            if Ascii.eqb c' quote then
              match decode body'' with
              | Some (content, rest) => Some (quote :: content, rest)
              | None => None
              end
            else Some ([], body')
        | [] => Some ([], [])
        end
      else
        match decode body' with
        | Some (content, rest) => Some (c :: content, rest)
        | None => None
        end
  end.

Definition is_literal (t : TokenType) : bool :=
  match t with
  | LITERAL | CAR => true
  | _ => false
  end.

(** What a token returned at [cursor pre _] says about the text [raw] it
    was read from, [rest] being the text left after it. *)
Definition token_post (pre : list ascii) (t : Token) (raw rest : list ascii)
  : Prop :=
  linha t = 1 + count_newlines pre
  /\ raw <> []
  /\ tipo t <> EOF
  /\ if is_literal (tipo t)
     then exists body,
            raw = quote :: body /\ decode (body ++ rest) = Some (lexema t, rest)
     else lexema t = raw /\ ~ In newline raw.

(** What one call of [get_next_token] at [cursor pre _] returns: after the
    skipped whitespace and comments, either a token read from the non-empty
    [text], or the end-of-input token at the end of the source. *)
Definition scanned (pre : list ascii) (t : Token) (raw rest : list ascii)
  : Prop :=
  exists skipped text,
    raw = skipped ++ text
    /\ (token_post (pre ++ skipped) t text rest
        \/ (t = mkToken EOF (str "EOF") (1 + count_newlines (pre ++ skipped))
            /\ text = [] /\ rest = [])).

(** ** Successive calls *)

(** The states a scanner built on [src] can be in when a call starts: a
    caller may go on calling after a token and after an exception. *)
Inductive reachable (src : list ascii) : Lexer -> Prop :=
| reachable_init : reachable src (Lexer_init src)
| reachable_return (s s' : Lexer) (t : Token) :
    reachable src s -> get_next_token s = Return t s' -> reachable src s'
| reachable_raise (s s' : Lexer) (e : PyException) :
    reachable src s -> get_next_token s = Raise e s' -> reachable src s'.

(** The result of one more call after [n] calls that returned. *)
Fixpoint call_again (n : nat) (s : Lexer) : Result Token :=
  match n with
  | 0 => get_next_token s
  | S n' =>
      match get_next_token s with
      | Return _ s' => call_again n' s'
      | r => r
      end
  end.

Definition is_eof (t : TokenType) : bool :=
  match t with
  | EOF => true
  | _ => false
  end.

(** The loop of a caller: the tokens of at most [n] calls, up to and
    without the end-of-input token. *)
Fixpoint tokens (n : nat) (s : Lexer) : Result (list Token) :=
  match n with
  | 0 => OutOfFuel
  | S n' =>
      match get_next_token s with
      | Return t s' =>
          if is_eof (tipo t) then Return [] s'
          else
            match tokens n' s' with
            | Return ts s'' => Return (t :: ts) s''
            | r => r
            end
      | Raise e s' => Raise e s'
      | OutOfFuel => OutOfFuel
      end
  end.

(** Every token holds at least one character of the text, so one call
    more than the text has characters reaches the end. *)
Definition tokenize (source_code : list ascii) : Result (list Token) :=
  tokens (S (List.length source_code)) (Lexer_init source_code).

(** ** Casings of a reserved word *)

Definition capital (c : ascii) : bool := between 65 90 (ord c).

(** [w] is the word [kw] of capitals with each letter in either case. *)
Fixpoint casing_of (kw w : list ascii) : bool :=
  match kw, w with
  | [], [] => true
  | k :: kw', c :: w' =>
      (Ascii.eqb c k || Ascii.eqb c (lower k)) && casing_of kw' w'
  | _, _ => false
  end.

(** The text after a word or a number does not continue it. *)
Definition ends_run (f : ascii -> bool) (rest : list ascii) : bool :=
  match rest with
  | [] => true
  | c :: _ => negb (f c)
  end.

(** The kind [_id_or_keyword] gives a lexeme. *)
Definition word_kind (lexeme : list ascii) : TokenType :=
  match dict_get RESERVED_KEYWORDS (upper lexeme) with
  | Some token_type => token_type
  | None => ID
  end.

(** ** Characters no rule of [get_next_token] takes *)

Definition ascii_letter (c : ascii) : bool :=
  between 65 90 (ord c) || between 97 122 (ord c).

Definition ascii_digit (c : ascii) : bool := between 48 57 (ord c).

Definition no_rule (c : ascii) : bool :=
  negb (whitespace c) && negb (char_in c ["{"; "("])
  && negb (isalpha c) && negb (isdigit c) && negb (Ascii.eqb c quote)
  && match single_char_tokens c with Some _ => false | None => true end.

(** ** Proof steps that recur *)

(** Brings a scanner state that was unfolded back to [cursor]. *)
Ltac refold_cursor :=
  repeat match goal with
         | |- context [mkLexer (?pre ++ ?suf) (List.length ?pre) ?c ?l] =>
             change (mkLexer (pre ++ suf) (List.length pre) c l)
               with (cursor pre suf)
         end.

(** The 256 cases of a character. *)
Ltac each_char c := destruct c as [[] [] [] [] [] [] [] []].

(** A call whose result is passed on: when the whole has a result, so has
    the call. *)
Ltac inner_call H call :=
  let N := fresh "N" in
  assert (N : call <> OutOfFuel)
    by (intros N; rewrite N in H; now apply H).

(** ** Texts of comments, numbers and literals *)

(** A star followed by a closing parenthesis occurs in the text. *)
Fixpoint has_star_paren (l : list ascii) : bool :=
  match l with
  | [] => false
  | c :: l' =>
      (Ascii.eqb c "*" && is_char (hd_error l') ")") || has_star_paren l'
  end.

(** One digit at least, and digits only. *)
Definition nonempty_digits (l : list ascii) : bool :=
  match l with
  | [] => false
  | _ :: _ => forallb isdigit l
  end.

(** Nothing, or a point and digits. *)
Definition is_fraction (l : list ascii) : bool :=
  match l with
  | [] => true
  | c :: f => Ascii.eqb c "." && nonempty_digits f
  end.

(** Nothing, or the letter e in either case, a sign or none, and digits. *)
Definition is_exponent (l : list ascii) : bool :=
  match l with
  | [] => true
  | e :: x =>
      Ascii.eqb (lower e) "e"
      && match x with
         | [] => false
         | sg :: x' =>
             if char_in sg ["+"; "-"] then nonempty_digits x'
             else nonempty_digits x
         end
  end.

(** A number as it is written: digits, a fraction, an exponent. *)
Definition number_text (w : list ascii) : Prop :=
  exists ds fr ex,
    w = ds ++ fr ++ ex
    /\ nonempty_digits ds = true
    /\ is_fraction fr = true
    /\ is_exponent ex = true.

(** The text [rest] after a number of fraction [fr] and exponent [ex] does
    not continue it: after an exponent no digit follows; after a fraction
    no digit and no exponent marker; after the integer part neither of
    these and no point, two points apart. *)
Definition number_ends (fr ex rest : list ascii) : bool :=
  match ex, fr with
  | _ :: _, _ => ends_run isdigit rest
  | [], _ :: _ =>
      ends_run (fun c => isdigit c || Ascii.eqb (lower c) "e") rest
  | [], [] =>
      match rest with
      | c :: d :: _ =>
          if Ascii.eqb c "." then Ascii.eqb d "."
          else negb (isdigit c || Ascii.eqb (lower c) "e")
      | _ =>
          ends_run
            (fun c => isdigit c || Ascii.eqb c "." || Ascii.eqb (lower c) "e")
            rest
      end
  end.

(** The content of a literal as it is written between its quotes: every
    quote doubled. *)
Fixpoint encode (content : list ascii) : list ascii :=
  match content with
  | [] => []
  | c :: content' =>
      if Ascii.eqb c quote then quote :: quote :: encode content'
      else c :: encode content'
  end.

(** The kinds [_id_or_keyword] gives. *)
Definition is_word (t : TokenType) : bool :=
  match t with
  | ID | PROGRAM | VAR | BEGIN | END | IF' | THEN | ELSE | WHILE | DO => true
  | _ => false
  end.

(** No character ahead, or one that [f] refuses. *)
Definition stops_at (f : ascii -> bool) (s : Lexer) : bool :=
  match current_char s with
  | None => true
  | Some c => negb (f c)
  end.

(** Where a call stands when it raises: an error of the scanner carries
    the line of that place; an unfinished comment or literal, and the
    [TypeError], are raised at the end of the text; a malformed number
    before a character that is no digit, or at the end of the text; an
    unexpected character before that character, which no rule takes. *)
Definition raise_site (e : PyException) (s' : Lexer) : Prop :=
  match e with
  | ErroLexico l m =>
      l = line s'
      /\ match m with
         | ComentarioChaveNaoFinalizado | ComentarioParNaoFinalizado
         | StringNaoFinalizada => current_char s' = None
         | DigitoEsperadoAposPonto _ | SinalOuDigitoEsperadoAposE _
         | DigitoEsperadoAposSinal _ => and_isdigit (current_char s') = false
         | CaractereInesperado c =>
             current_char s' = Some c /\ no_rule c = true
         end
  | TypeError => current_char s' = None
  | AttributeError => False
  end.

(** What the state machine of [_number] has read when it is in [state]
    with [lexeme] gathered, from its first digit on. *)
Definition reads (state : nat) (lexeme : list ascii) : Prop :=
  match state with
  | 0 => nonempty_digits lexeme = true
  | 1 => exists ds, lexeme = ds ++ ["."] /\ nonempty_digits ds = true
  | 2 =>
      exists ds fs,
        lexeme = ds ++ "." :: fs
        /\ nonempty_digits ds = true /\ nonempty_digits fs = true
  | 3 =>
      exists ds fr e,
        lexeme = ds ++ fr ++ [e]
        /\ nonempty_digits ds = true /\ is_fraction fr = true
        /\ Ascii.eqb (lower e) "e" = true
  | 4 =>
      exists ds fr e sg,
        lexeme = ds ++ fr ++ [e; sg]
        /\ nonempty_digits ds = true /\ is_fraction fr = true
        /\ Ascii.eqb (lower e) "e" = true /\ char_in sg ["+"; "-"] = true
  | 5 =>
      exists ds fr ex,
        lexeme = ds ++ fr ++ ex
        /\ nonempty_digits ds = true /\ is_fraction fr = true
        /\ is_exponent ex = true /\ ex <> []
  | _ => False
  end.

(** The state of [_number] after the integer part and the fraction [fr]. *)
Definition state_after (fr : list ascii) : nat :=
  match fr with
  | [] => 0
  | _ :: _ => 2
  end.

(** The word has the capital letter S twice in a row: what the sharp s of
    Latin-1 becomes in [upper]. *)
Fixpoint double_s (kw : list ascii) : bool :=
  match kw with
  | [] => false
  | k :: kw' =>
      (Ascii.eqb k "S" && is_char (hd_error kw') "S") || double_s kw'
  end.

(** * The loops of the scanner on a cursor *)

(** ** Moving the cursor *)

Lemma Lexer_init_cursor (src : list ascii) : Lexer_init src = cursor [] src.
Proof. destruct src; reflexivity. Qed.

Lemma count_newlines_app (a b : list ascii) :
  count_newlines (a ++ b) = count_newlines a + count_newlines b.
Proof. apply count_occ_app. Qed.

Lemma count_newlines_snoc (pre : list ascii) (c : ascii) :
  count_newlines (pre ++ [c]) =
  if Ascii.eqb c newline then count_newlines pre + 1 else count_newlines pre.
Proof.
  rewrite count_newlines_app. unfold count_newlines at 2. simpl.
  destruct (ascii_dec c newline) as [->|ne].
  - reflexivity.
  - apply Ascii.eqb_neq in ne. rewrite ne. lia.
Qed.

Lemma nth_error_past (pre : list ascii) (suf : list ascii) :
  (if List.length (pre ++ suf) <=? List.length pre then None
   else nth_error (pre ++ suf) (List.length pre)) = hd_error suf.
Proof.
  destruct suf as [|c suf].
  - rewrite app_nil_r, Nat.leb_refl. reflexivity.
  - rewrite length_app. simpl.
    destruct (Nat.leb_spec (List.length pre + S (List.length suf)) (List.length pre)).
    + lia.
    + rewrite nth_error_app2, Nat.sub_diag by lia. reflexivity.
Qed.

Lemma advance_cursor (pre suf : list ascii) (c : ascii) :
  _advance (cursor pre (c :: suf)) = cursor (pre ++ [c]) suf.
Proof.
  unfold _advance, cursor. simpl.
  assert (E : pre ++ c :: suf = (pre ++ [c]) ++ suf)
    by (rewrite <- app_assoc; reflexivity).
  assert (L : List.length pre + 1 = List.length (pre ++ [c]))
    by (rewrite length_app; reflexivity).
  rewrite L, E, nth_error_past, count_newlines_snoc.
  destruct (Ascii.eqb c newline); f_equal; lia.
Qed.

Lemma peek_cursor (pre suf : list ascii) (c : ascii) :
  _peek (cursor pre (c :: suf)) = hd_error suf.
Proof.
  unfold _peek, cursor. simpl.
  assert (E : pre ++ c :: suf = (pre ++ [c]) ++ suf)
    by (rewrite <- app_assoc; reflexivity).
  assert (L : List.length pre + 1 = List.length (pre ++ [c]))
    by (rewrite length_app; reflexivity).
  rewrite L, E. apply nth_error_past.
Qed.

Lemma fuel_for_cursor (pre suf : list ascii) :
  fuel_for (cursor pre suf) = List.length suf + 2.
Proof. unfold fuel_for, cursor. simpl. rewrite length_app. lia. Qed.

Lemma moved_nil (pre suf : list ascii) : moved pre suf [] suf (cursor pre suf).
Proof. split; [reflexivity | now rewrite app_nil_r]. Qed.

Lemma moved_cons (pre suf raw rest : list ascii) (c : ascii) (s' : Lexer) :
  moved (pre ++ [c]) suf raw rest s' -> moved pre (c :: suf) (c :: raw) rest s'.
Proof.
  intros [-> ->]. split; [reflexivity|].
  now rewrite <- app_assoc.
Qed.

Lemma moved_trans (pre suf raw1 rest1 raw2 rest2 : list ascii) (s1 s2 : Lexer) :
  moved pre suf raw1 rest1 s1 ->
  moved (pre ++ raw1) rest1 raw2 rest2 s2 ->
  moved pre suf (raw1 ++ raw2) rest2 s2.
Proof.
  intros [-> _] [-> ->]. split; now rewrite app_assoc.
Qed.

(** *** Whitespace *)

Lemma skip_whitespace_eq (fuel : nat) (pre suf : list ascii) (c : ascii) :
  _skip_whitespace (S fuel) (cursor pre (c :: suf)) =
  if whitespace c then _skip_whitespace fuel (cursor (pre ++ [c]) suf)
  else Return tt (cursor pre (c :: suf)).
Proof. simpl. now rewrite advance_cursor. Qed.

Lemma skip_whitespace_spec (suf : list ascii) :
  forall (pre : list ascii) (fuel : nat),
    List.length suf < fuel ->
    exists ws rest,
      _skip_whitespace fuel (cursor pre suf) = Return tt (cursor (pre ++ ws) rest)
      /\ suf = ws ++ rest
      /\ forallb whitespace ws = true
      /\ (forall c, hd_error suf = Some c -> whitespace c = true -> ws <> []).
Proof.
  induction suf as [|c suf IH]; intros pre fuel Hf.
  - destruct fuel; [inversion Hf|].
    exists [], []. rewrite app_nil_r. repeat split; discriminate.
  - destruct fuel; [inversion Hf|]. simpl in Hf.
    rewrite skip_whitespace_eq. destruct (whitespace c) eqn:W.
    + destruct (IH (pre ++ [c]) fuel) as (ws & rest & E & -> & A & _); [lia|].
      exists (c :: ws), rest. rewrite E, <- app_assoc. simpl.
      rewrite W, A. repeat split. discriminate.
    + exists [], (c :: suf). rewrite app_nil_r. repeat split.
      intros c' [= <-]. congruence.
Qed.

(** *** Comments *)

Lemma skip_to_close_brace_eq (fuel : nat) (pre suf : list ascii) (c : ascii) :
  skip_to_close_brace (S fuel) (cursor pre (c :: suf)) =
  if negb (Ascii.eqb c "}") then skip_to_close_brace fuel (cursor (pre ++ [c]) suf)
  else Return tt (cursor pre (c :: suf)).
Proof. simpl. now rewrite advance_cursor. Qed.

Lemma skip_to_close_brace_spec (suf : list ascii) :
  forall (pre : list ascii) (fuel : nat),
    List.length suf < fuel ->
    exists raw rest,
      skip_to_close_brace fuel (cursor pre suf) = Return tt (cursor (pre ++ raw) rest)
      /\ suf = raw ++ rest
      /\ ~ In "}" raw
      /\ (rest = [] \/ hd_error rest = Some "}").
Proof.
  induction suf as [|c suf IH]; intros pre fuel Hf.
  - destruct fuel; [inversion Hf|].
    exists [], []. rewrite app_nil_r. repeat split; auto.
  - destruct fuel; [inversion Hf|]. simpl in Hf.
    rewrite skip_to_close_brace_eq. destruct (Ascii.eqb c "}") eqn:B; simpl.
    + apply Ascii.eqb_eq in B. subst c.
      exists [], ("}" :: suf). rewrite app_nil_r. repeat split; auto.
    + destruct (IH (pre ++ [c]) fuel) as (raw & rest & E & -> & N & C); [lia|].
      exists (c :: raw), rest. rewrite E, <- app_assoc. repeat split; auto.
      intros [->|I]; [|auto]. now rewrite Ascii.eqb_refl in B.
Qed.

Lemma skip_to_star_paren_eq (fuel : nat) (pre suf : list ascii) (c : ascii) :
  skip_to_star_paren (S fuel) (cursor pre (c :: suf)) =
  if Ascii.eqb c "*" && is_char (hd_error suf) ")"
  then Return tt (cursor pre (c :: suf))
  else skip_to_star_paren fuel (cursor (pre ++ [c]) suf).
Proof. simpl. now rewrite advance_cursor, peek_cursor. Qed.

Lemma skip_to_star_paren_spec (suf : list ascii) :
  forall (pre : list ascii) (fuel : nat),
    List.length suf < fuel ->
    exists raw rest,
      skip_to_star_paren fuel (cursor pre suf) = Return tt (cursor (pre ++ raw) rest)
      /\ suf = raw ++ rest
      /\ (rest = [] \/ exists rest', rest = "*" :: ")" :: rest').
Proof.
  induction suf as [|c suf IH]; intros pre fuel Hf.
  - destruct fuel; [inversion Hf|].
    exists [], []. rewrite app_nil_r. repeat split; auto.
  - destruct fuel; [inversion Hf|]. simpl in Hf.
    rewrite skip_to_star_paren_eq.
    destruct (Ascii.eqb c "*" && is_char (hd_error suf) ")") eqn:B.
    + apply andb_true_iff in B. destruct B as [B1 B2].
      apply Ascii.eqb_eq in B1. subst c.
      destruct suf as [|d suf]; [discriminate|]. simpl in B2.
      apply Ascii.eqb_eq in B2. subst d.
      exists [], ("*" :: ")" :: suf). rewrite app_nil_r. repeat split; eauto.
    + destruct (IH (pre ++ [c]) fuel) as (raw & rest & E & -> & C); [lia|].
      exists (c :: raw), rest. rewrite E, <- app_assoc. repeat split; auto.
Qed.

Lemma outcome_cons {A : Type} (pre suf : list ascii) (c : ascii)
  (post post' : A -> list ascii -> list ascii -> Prop) (r : Result A) :
  (forall a raw rest, post a raw rest -> post' a (c :: raw) rest) ->
  outcome (pre ++ [c]) suf post r -> outcome pre (c :: suf) post' r.
Proof.
  intros H. destruct r as [a s'|e s'|]; simpl; auto.
  - intros (raw & rest & M & P). exists (c :: raw), rest.
    split; [now apply moved_cons | auto].
  - intros (raw & rest & M). exists (c :: raw), rest. now apply moved_cons.
Qed.

Lemma skip_comment_spec (pre suf : list ascii) (fuel : nat) :
  List.length suf < fuel ->
  outcome pre suf
    (fun b raw rest => if b : bool then raw <> [] else raw = [])
    (_skip_comment fuel (cursor pre suf)).
Proof.
  intros Hf. unfold _skip_comment.
  destruct suf as [|c suf].
  { simpl. exists [], []. split; [apply moved_nil | reflexivity]. }
  simpl in Hf. cbn [cursor current_char hd_error is_char].
  refold_cursor.
  destruct (Ascii.eqb c "{") eqn:B1.
  - rewrite advance_cursor.
    destruct (skip_to_close_brace_spec suf (pre ++ [c]) fuel)
      as (raw & rest & E & -> & _ & C); [lia|].
    rewrite E. destruct rest as [|d rest]; simpl.
    + exists (c :: raw), []. apply moved_cons. split; reflexivity.
    + rewrite advance_cursor. exists (c :: raw ++ [d]), rest.
      split; [|discriminate]. apply moved_cons. split.
      * now rewrite <- app_assoc.
      * now rewrite app_assoc.
  - rewrite peek_cursor.
    destruct (Ascii.eqb c "(" && is_char (hd_error suf) "*") eqn:B2.
    + destruct suf as [|d suf]; [now rewrite andb_false_r in B2|].
      rewrite !advance_cursor.
      destruct (skip_to_star_paren_spec suf ((pre ++ [c]) ++ [d]) fuel)
        as (raw & rest & E & -> & C); [simpl in Hf; lia|].
      rewrite E. destruct C as [->|(rest' & ->)]; simpl.
      * exists (c :: d :: raw), []. do 2 apply moved_cons. split; reflexivity.
      * rewrite !advance_cursor. exists (c :: d :: raw ++ ["*"; ")"]), rest'.
        split; [|discriminate]. do 2 apply moved_cons. split.
        -- now rewrite <- app_assoc.
        -- now rewrite <- !app_assoc.
    + exists [], (c :: suf). split; [apply moved_nil | reflexivity].
Qed.

(** *** Identifiers *)

Lemma id_loop_eq (fuel : nat) (lexeme pre suf : list ascii) (c : ascii) :
  id_loop (S fuel) lexeme (cursor pre (c :: suf)) =
  if isalnum c then id_loop fuel (lexeme ++ [c]) (cursor (pre ++ [c]) suf)
  else Return lexeme (cursor pre (c :: suf)).
Proof. simpl. now rewrite advance_cursor. Qed.

Lemma id_loop_spec (suf : list ascii) :
  forall (pre lexeme : list ascii) (fuel : nat),
    List.length suf < fuel ->
    exists raw rest,
      id_loop fuel lexeme (cursor pre suf) =
        Return (lexeme ++ raw) (cursor (pre ++ raw) rest)
      /\ suf = raw ++ rest
      /\ forallb isalnum raw = true
      /\ match rest with [] => True | c :: _ => isalnum c = false end.
Proof.
  induction suf as [|c suf IH]; intros pre lexeme fuel Hf.
  - destruct fuel; [inversion Hf|].
    exists [], []. rewrite !app_nil_r. repeat split.
  - destruct fuel; [inversion Hf|]. simpl in Hf.
    rewrite id_loop_eq. destruct (isalnum c) eqn:B.
    + destruct (IH (pre ++ [c]) (lexeme ++ [c]) fuel)
        as (raw & rest & E & -> & A & M); [lia|].
      exists (c :: raw), rest. rewrite E, <- !app_assoc. simpl.
      rewrite B, A. repeat split. exact M.
    + exists [], (c :: suf). rewrite !app_nil_r. repeat split. exact B.
Qed.

(** *** Numbers *)

Lemma number_loop_spec (suf : list ascii) :
  forall (pre lexeme : list ascii) (state fuel : nat),
    state <= 5 ->
    List.length suf < fuel ->
    outcome pre suf
      (fun lexeme' raw rest =>
         lexeme' = lexeme ++ raw /\ forallb number_char raw = true)
      (number_loop fuel state lexeme (cursor pre suf)).
Proof.
  induction suf as [|c suf IH]; intros pre lexeme state fuel Hs Hf.
  - destruct fuel; [inversion Hf|].
    assert (R : outcome pre []
              (fun lexeme' raw rest =>
                 lexeme' = lexeme ++ raw /\ forallb number_char raw = true)
              (Return lexeme (cursor pre []))).
    { exists [], []. split; [apply moved_nil|]. now rewrite app_nil_r. }
    assert (X : forall e, outcome pre []
              (fun lexeme' raw rest =>
                 lexeme' = lexeme ++ raw /\ forallb number_char raw = true)
              (Raise e (cursor pre []))).
    { intros e. exists [], []. apply moved_nil. }
    do 6 (destruct state as [|state]; [solve [exact R | exact (X _)]|]).
    lia.
  - destruct fuel; [inversion Hf|]. simpl in Hf.
    assert (R : outcome pre (c :: suf)
              (fun lexeme' raw rest =>
                 lexeme' = lexeme ++ raw /\ forallb number_char raw = true)
              (Return lexeme (cursor pre (c :: suf)))).
    { exists [], (c :: suf). split; [apply moved_nil|]. now rewrite app_nil_r. }
    assert (X : forall e, outcome pre (c :: suf)
              (fun lexeme' raw rest =>
                 lexeme' = lexeme ++ raw /\ forallb number_char raw = true)
              (Raise e (cursor pre (c :: suf)))).
    { intros e. exists [], (c :: suf). apply moved_nil. }
    assert (K : forall state', state' <= 5 -> number_char c = true ->
              outcome pre (c :: suf)
                (fun lexeme' raw rest =>
                   lexeme' = lexeme ++ raw /\ forallb number_char raw = true)
                (number_loop fuel state' (lexeme ++ [c]) (cursor (pre ++ [c]) suf))).
    { intros state' Hs' Hc.
      eapply outcome_cons; [|apply IH; [exact Hs' | lia]].
      simpl. intros a raw rest [-> F]. now rewrite <- app_assoc, Hc, F. }
    unfold number_char in K.
    do 6 (destruct state as [|state];
          [ cbn [number_loop cursor current_char hd_error and_isdigit
                 and_lower_is_e is_char take];
            refold_cursor;
            rewrite ?advance_cursor, ?peek_cursor;
            repeat match goal with
                   | |- context [if ?b then _ else _] => destruct b eqn:?
                   end;
            try solve [exact R | exact (X _)
                      | apply K; [lia | rewrite ?orb_true_r; reflexivity]]
          | ]).
    lia.
Qed.

(** *** Quoted literals *)

Lemma string_loop_spec (fuel : nat) :
  forall (suf pre content : list ascii),
    List.length suf < fuel ->
    match decode suf with
    | Some (dec, rest) =>
        exists raw,
          suf = raw ++ rest
          /\ string_loop fuel content (cursor pre suf) =
             Return (content ++ dec) (cursor (pre ++ raw) rest)
    | None =>
        string_loop fuel content (cursor pre suf) =
        Raise (ErroLexico (1 + count_newlines (pre ++ suf)) StringNaoFinalizada)
              (cursor (pre ++ suf) [])
    end.
Proof.
  induction fuel as [|fuel IH]; intros suf pre content Hf; [inversion Hf|].
  destruct suf as [|c suf].
  - simpl. now rewrite app_nil_r.
  - simpl in Hf.
    cbn [string_loop decode cursor current_char hd_error].
    refold_cursor.
    rewrite peek_cursor. destruct (Ascii.eqb c quote) eqn:Q.
    + apply Ascii.eqb_eq in Q. subst c.
      destruct suf as [|d suf].
      * cbn [hd_error is_char]. exists [quote].
        rewrite advance_cursor, !app_nil_r. now split.
      * cbn [hd_error is_char]. destruct (Ascii.eqb d quote) eqn:Q'.
        -- apply Ascii.eqb_eq in Q'. subst d. rewrite !advance_cursor.
           specialize (IH suf ((pre ++ [quote]) ++ [quote]) (content ++ [quote])).
           simpl in Hf.
           destruct (decode suf) as [[dec rest]|].
           ++ destruct IH as (raw & -> & E); [lia|].
              exists (quote :: quote :: raw). split; [reflexivity|].
              rewrite E, <- !app_assoc. reflexivity.
           ++ rewrite IH by lia. rewrite <- !app_assoc. reflexivity.
        -- exists [quote]. rewrite advance_cursor, app_nil_r. now split.
    + rewrite advance_cursor.
      specialize (IH suf (pre ++ [c]) (content ++ [c])).
      destruct (decode suf) as [[dec rest]|].
      * destruct IH as (raw & -> & E); [lia|].
        exists (c :: raw). split; [reflexivity|].
        rewrite E, <- !app_assoc. reflexivity.
      * rewrite IH by lia. rewrite <- !app_assoc. reflexivity.
Qed.

(** *** The tables *)

Lemma reserved_keyword_kind (key : list N) (t : TokenType) :
  dict_get RESERVED_KEYWORDS key = Some t ->
  is_literal t = false /\ t <> EOF /\ t <> ID.
Proof.
  unfold RESERVED_KEYWORDS, reserved_words. cbn [map fst snd dict_get].
  repeat match goal with
         | |- context [if ?b then _ else _] => destruct b
         end;
    intros [= <-]; repeat split; discriminate.
Qed.

Lemma single_char_token_kind (c : ascii) (t : TokenType) :
  single_char_tokens c = Some t ->
  is_literal t = false /\ t <> EOF /\ c <> newline.
Proof.
  unfold single_char_tokens.
  repeat match goal with
         | |- context [if Ascii.eqb c ?d then _ else _] =>
             destruct (Ascii.eqb_spec c d) as [->|]
         end;
    intros [= <-]; repeat split; discriminate.
Qed.

Lemma forallb_not_in (f : ascii -> bool) (x : ascii) (l : list ascii) :
  f x = false -> forallb f l = true -> ~ In x l.
Proof.
  intros Fx Fl I. rewrite forallb_forall in Fl. specialize (Fl x I). congruence.
Qed.

Lemma isalpha_isalnum (c : ascii) : isalpha c = true -> isalnum c = true.
Proof. unfold isalnum. now intros ->. Qed.

Lemma isdigit_number_char (c : ascii) : isdigit c = true -> number_char c = true.
Proof. unfold number_char. now intros ->. Qed.

Lemma is_char_hd (suf : list ascii) (d : ascii) :
  is_char (hd_error suf) d = true -> exists suf', suf = d :: suf'.
Proof.
  destruct suf as [|d' suf']; [discriminate|]. simpl.
  intros E. apply Ascii.eqb_eq in E. subst. eauto.
Qed.

Lemma outcome_app {A : Type} (pre ws suf : list ascii)
  (post post' : A -> list ascii -> list ascii -> Prop) (r : Result A) :
  (forall a raw rest, post a raw rest -> post' a (ws ++ raw) rest) ->
  outcome (pre ++ ws) suf post r -> outcome pre (ws ++ suf) post' r.
Proof.
  intros H. destruct r as [a s'|e s'|]; simpl; auto.
  - intros (raw & rest & [-> ->] & P). exists (ws ++ raw), rest.
    split; [|auto]. split; now rewrite app_assoc.
  - intros (raw & rest & [-> ->]). exists (ws ++ raw), rest.
    split; now rewrite app_assoc.
Qed.

(** *** The recognisers *)

Lemma id_or_keyword_spec (pre suf : list ascii) (c : ascii) (fuel : nat) :
  isalpha c = true ->
  List.length (c :: suf) < fuel ->
  outcome pre (c :: suf) (token_post pre)
    (_id_or_keyword fuel (cursor pre (c :: suf))).
Proof.
  intros Hc Hf. destruct fuel; [inversion Hf|]. simpl in Hf.
  unfold _id_or_keyword. rewrite id_loop_eq, (isalpha_isalnum c Hc).
  destruct (id_loop_spec suf (pre ++ [c]) ([] ++ [c]) fuel)
    as (raw & rest & E & -> & A & _); [lia|].
  rewrite E. simpl app.
  assert (M : moved pre (c :: raw ++ rest) (c :: raw) rest
                (cursor ((pre ++ [c]) ++ raw) rest)).
  { apply moved_cons. now split. }
  assert (NL : ~ In newline (c :: raw)).
  { apply (forallb_not_in isalnum); [reflexivity|].
    simpl. now rewrite (isalpha_isalnum c Hc). }
  destruct (dict_get RESERVED_KEYWORDS (upper (c :: raw))) as [t|] eqn:D.
  - destruct (reserved_keyword_kind _ _ D) as (L & NE & _).
    exists (c :: raw), rest. split; [exact M|].
    unfold token_post. cbn [tipo lexema linha line cursor]. rewrite L.
    repeat split; auto. discriminate.
  - exists (c :: raw), rest. split; [exact M|].
    unfold token_post. cbn [tipo lexema linha line cursor is_literal].
    repeat split; auto; discriminate.
Qed.

Lemma number_spec (pre suf : list ascii) (c : ascii) (fuel : nat) :
  isdigit c = true ->
  List.length (c :: suf) < fuel ->
  outcome pre (c :: suf) (token_post pre)
    (_number fuel (cursor pre (c :: suf))).
Proof.
  intros Hc Hf. destruct fuel; [inversion Hf|]. simpl in Hf.
  unfold _number.
  cbn [number_loop cursor current_char hd_error and_isdigit take line].
  refold_cursor.
  rewrite Hc, advance_cursor.
  pose proof (number_loop_spec suf (pre ++ [c]) ([] ++ [c]) 0 fuel) as S.
  destruct (number_loop fuel 0 ([] ++ [c]) (cursor (pre ++ [c]) suf))
    as [lexeme s'|e s'|]; simpl in S |- *.
  - destruct S as (raw & rest & M & -> & F); [lia | lia |].
    exists (c :: raw), rest. split; [now apply moved_cons|].
    unfold token_post. cbn [tipo lexema linha is_literal].
    repeat split; try discriminate.
    apply (forallb_not_in number_char); [reflexivity|].
    simpl. now rewrite (isdigit_number_char c Hc).
  - destruct S as (raw & rest & M); [lia | lia |].
    exists (c :: raw), rest. now apply moved_cons.
  - apply S; lia.
Qed.

Lemma string_literal_spec (pre suf : list ascii) (fuel : nat) :
  List.length (quote :: suf) < fuel ->
  outcome pre (quote :: suf) (token_post pre)
    (_string_literal fuel (cursor pre (quote :: suf))).
Proof.
  intros Hf. simpl in Hf. unfold _string_literal. rewrite advance_cursor.
  pose proof (string_loop_spec fuel suf (pre ++ [quote]) []) as S.
  destruct (decode suf) as [[dec rest]|] eqn:D.
  - destruct S as (raw & -> & E); [lia|]. rewrite E. simpl app.
    assert (M : moved pre (quote :: raw ++ rest) (quote :: raw) rest
                  (cursor ((pre ++ [quote]) ++ raw) rest)).
    { apply moved_cons. now split. }
    destruct (List.length dec =? 1);
      (exists (quote :: raw), rest; split; [exact M|];
       unfold token_post; cbn [tipo lexema linha is_literal line cursor];
       repeat split; try discriminate; exists raw; now split).
  - rewrite S by lia. simpl. exists (quote :: suf), [].
    apply moved_cons. split; [now rewrite app_nil_r | reflexivity].
Qed.

Lemma recognise_spec (pre suf : list ascii) (c : ascii) (fuel : nat) :
  List.length (c :: suf) < fuel ->
  outcome pre (c :: suf) (token_post pre)
    (recognise fuel (cursor pre (c :: suf))).
Proof.
  intros Hf. unfold recognise. cbn [cursor current_char hd_error].
  refold_cursor.
  rewrite peek_cursor.
  assert (T : forall (t : TokenType) (text : string) (d e : ascii),
            str text = [d; e] -> d <> newline -> e <> newline ->
            is_literal t = false -> t <> EOF ->
            Ascii.eqb c d && is_char (hd_error suf) e = true ->
            outcome pre (c :: suf) (token_post pre)
              (two_char t text (cursor pre (c :: suf)))).
  { intros t text d e Ht Hd He L NE B.
    apply andb_true_iff in B. destruct B as [B1 B2].
    apply Ascii.eqb_eq in B1. subst d.
    destruct (is_char_hd _ _ B2) as (suf' & ->).
    unfold two_char. rewrite !advance_cursor, Ht.
    exists [c; e], suf'. split.
    - split; [reflexivity | now rewrite <- app_assoc].
    - unfold token_post. cbn [tipo lexema linha line cursor]. rewrite L.
      repeat split; auto; [discriminate|].
      intros [E|[E|[]]]; congruence. }
  destruct (isalpha c) eqn:A; [now apply id_or_keyword_spec|].
  destruct (isdigit c) eqn:D; [now apply number_spec|].
  destruct (Ascii.eqb_spec c quote) as [->|NQ]; [now apply string_literal_spec|].
  destruct (Ascii.eqb c ":" && is_char (hd_error suf) "=") eqn:B1;
    [eapply T; eauto; try reflexivity; discriminate|].
  destruct (Ascii.eqb c "<" && is_char (hd_error suf) ">") eqn:B2;
    [eapply T; eauto; try reflexivity; discriminate|].
  destruct (Ascii.eqb c "<" && is_char (hd_error suf) "=") eqn:B3;
    [eapply T; eauto; try reflexivity; discriminate|].
  destruct (Ascii.eqb c ">" && is_char (hd_error suf) "=") eqn:B4;
    [eapply T; eauto; try reflexivity; discriminate|].
  destruct (single_char_tokens c) as [t|] eqn:S.
  - destruct (single_char_token_kind _ _ S) as (L & NE & NN).
    rewrite advance_cursor. exists [c], suf. split.
    + split; reflexivity.
    + unfold token_post. cbn [tipo lexema linha line cursor]. rewrite L.
      repeat split; auto; [discriminate|].
      intros [E|[]]. congruence.
  - exists [], (c :: suf). apply moved_nil.
Qed.

(** *** The loop of [get_next_token] *)

Lemma token_loop_spec (fuel : nat) :
  forall (suf pre : list ascii),
    List.length suf + 2 <= fuel ->
    outcome pre suf (scanned pre) (token_loop fuel (cursor pre suf)).
Proof.
  induction fuel as [|fuel IH]; intros suf pre Hf; [lia|].
  assert (Here : forall r,
            outcome pre suf (token_post pre) r ->
            outcome pre suf (scanned pre) r).
  { intros [t s'|e s'|]; simpl; auto.
    intros (raw & rest & M & P). exists raw, rest. split; [exact M|].
    exists [], raw. rewrite app_nil_r. auto. }
  assert (Later : forall ws rest r,
            suf = ws ++ rest -> ws <> [] ->
            r = token_loop fuel (cursor (pre ++ ws) rest) ->
            outcome pre suf (scanned pre) r).
  { intros ws rest r -> NE ->.
    eapply outcome_app; [|apply IH].
    - intros t raw rest' (skipped & text & -> & P).
      exists (ws ++ skipped), text. now rewrite !app_assoc.
    - rewrite length_app in Hf. destruct ws; [congruence|]. simpl in Hf. lia. }
  destruct suf as [|c suf].
  { simpl. exists [], []. split; [apply moved_nil|].
    exists [], []. split; [reflexivity|]. right.
    rewrite app_nil_r. repeat split. }
  simpl in Hf. cbn [token_loop cursor current_char hd_error].
  refold_cursor.
  destruct (char_in c [" "; tab; newline]) eqn:W.
  - destruct (skip_whitespace_spec (c :: suf) pre fuel)
      as (ws & rest & E & S & _ & NE); [simpl; lia|].
    rewrite E. apply (Later ws rest); [exact S | | reflexivity].
    apply (NE c); [reflexivity | exact W].
  - destruct (char_in c ["{"; "("]) eqn:C.
    + pose proof (skip_comment_spec pre (c :: suf) fuel) as S.
      destruct (_skip_comment fuel (cursor pre (c :: suf))) as [[] s1|e s1|].
      * destruct S as (raw & rest & [E ->] & NE); [simpl; lia|].
        now apply (Later raw rest).
      * destruct S as (raw & rest & [E ->] & ->); [simpl; lia|].
        simpl in E. subst rest. rewrite app_nil_r.
        apply Here, recognise_spec. simpl. lia.
      * destruct S as (raw & rest & M); [simpl; lia|]. exists raw, rest. exact M.
      * apply S. simpl. lia.
    + apply Here, recognise_spec. simpl. lia.
Qed.

(** ** More fuel never changes a result *)

Lemma skip_whitespace_fuel (fuel : nat) :
  forall (fuel' : nat) (s : Lexer),
    fuel <= fuel' ->
    _skip_whitespace fuel s <> OutOfFuel ->
    _skip_whitespace fuel' s = _skip_whitespace fuel s.
Proof.
  induction fuel as [|fuel IH]; intros fuel' s Hle H; [now elim H|].
  destruct fuel' as [|fuel']; [lia|]. cbn [_skip_whitespace] in H |- *.
  destruct (current_char s) as [c|]; [|reflexivity].
  destruct (char_in c [" "; tab; newline]); [|reflexivity].
  apply IH; [lia | exact H].
Qed.

Lemma skip_to_close_brace_fuel (fuel : nat) :
  forall (fuel' : nat) (s : Lexer),
    fuel <= fuel' ->
    skip_to_close_brace fuel s <> OutOfFuel ->
    skip_to_close_brace fuel' s = skip_to_close_brace fuel s.
Proof.
  induction fuel as [|fuel IH]; intros fuel' s Hle H; [now elim H|].
  destruct fuel' as [|fuel']; [lia|]. cbn [skip_to_close_brace] in H |- *.
  destruct (current_char s) as [c|]; [|reflexivity].
  destruct (negb (Ascii.eqb c "}")); [|reflexivity].
  apply IH; [lia | exact H].
Qed.

Lemma skip_to_star_paren_fuel (fuel : nat) :
  forall (fuel' : nat) (s : Lexer),
    fuel <= fuel' ->
    skip_to_star_paren fuel s <> OutOfFuel ->
    skip_to_star_paren fuel' s = skip_to_star_paren fuel s.
Proof.
  induction fuel as [|fuel IH]; intros fuel' s Hle H; [now elim H|].
  destruct fuel' as [|fuel']; [lia|]. cbn [skip_to_star_paren] in H |- *.
  destruct (current_char s) as [c|]; [|reflexivity].
  destruct (Ascii.eqb c "*" && is_char (_peek s) ")"); [reflexivity|].
  apply IH; [lia | exact H].
Qed.

Lemma id_loop_fuel (fuel : nat) :
  forall (fuel' : nat) (lexeme : list ascii) (s : Lexer),
    fuel <= fuel' ->
    id_loop fuel lexeme s <> OutOfFuel ->
    id_loop fuel' lexeme s = id_loop fuel lexeme s.
Proof.
  induction fuel as [|fuel IH]; intros fuel' lexeme s Hle H; [now elim H|].
  destruct fuel' as [|fuel']; [lia|]. cbn [id_loop] in H |- *.
  destruct (current_char s) as [c|]; [|reflexivity].
  destruct (isalnum c); [|reflexivity].
  apply IH; [lia | exact H].
Qed.

Lemma number_loop_fuel (fuel : nat) :
  forall (fuel' state : nat) (lexeme : list ascii) (s : Lexer),
    fuel <= fuel' ->
    number_loop fuel state lexeme s <> OutOfFuel ->
    number_loop fuel' state lexeme s = number_loop fuel state lexeme s.
Proof.
  induction fuel as [|fuel IH]; intros fuel' state lexeme s Hle H;
    [now elim H|].
  destruct fuel' as [|fuel']; [lia|].
  assert (G : forall state' lexeme' s',
            number_loop fuel state' lexeme' s' <> OutOfFuel ->
            number_loop fuel' state' lexeme' s' =
            number_loop fuel state' lexeme' s')
    by (intros; apply IH; [lia | assumption]).
  cbn [number_loop] in H |- *.
  do 6 (destruct state as [|state];
        [ repeat match goal with
                 | |- context [if ?b then _ else _] => destruct b
                 | |- context [match current_char s with _ => _ end] =>
                     destruct (current_char s)
                 end; solve [reflexivity | apply G; exact H]
        | ]).
  apply G; exact H.
Qed.

Lemma string_loop_fuel (fuel : nat) :
  forall (fuel' : nat) (content : list ascii) (s : Lexer),
    fuel <= fuel' ->
    string_loop fuel content s <> OutOfFuel ->
    string_loop fuel' content s = string_loop fuel content s.
Proof.
  induction fuel as [|fuel IH]; intros fuel' content s Hle H; [now elim H|].
  destruct fuel' as [|fuel']; [lia|]. cbn [string_loop] in H |- *.
  destruct (current_char s) as [c|]; [|reflexivity].
  destruct (Ascii.eqb c quote).
  - destruct (is_char (_peek s) quote); [|reflexivity].
    apply IH; [lia | exact H].
  - apply IH; [lia | exact H].
Qed.

Lemma skip_comment_fuel (fuel fuel' : nat) (s : Lexer) :
  fuel <= fuel' ->
  _skip_comment fuel s <> OutOfFuel ->
  _skip_comment fuel' s = _skip_comment fuel s.
Proof.
  intros Hle H. unfold _skip_comment in *.
  destruct (is_char (current_char s) "{").
  - inner_call H (skip_to_close_brace fuel (_advance s)).
    now rewrite (skip_to_close_brace_fuel fuel fuel').
  - destruct (is_char (current_char s) "(" && is_char (_peek s) "*");
      [|reflexivity].
    inner_call H (skip_to_star_paren fuel (_advance (_advance s))).
    now rewrite (skip_to_star_paren_fuel fuel fuel').
Qed.

Lemma id_or_keyword_fuel (fuel fuel' : nat) (s : Lexer) :
  fuel <= fuel' ->
  _id_or_keyword fuel s <> OutOfFuel ->
  _id_or_keyword fuel' s = _id_or_keyword fuel s.
Proof.
  intros Hle H. unfold _id_or_keyword in *.
  inner_call H (id_loop fuel [] s).
  now rewrite (id_loop_fuel fuel fuel').
Qed.

Lemma number_fuel (fuel fuel' : nat) (s : Lexer) :
  fuel <= fuel' ->
  _number fuel s <> OutOfFuel ->
  _number fuel' s = _number fuel s.
Proof.
  intros Hle H. unfold _number in *.
  inner_call H (number_loop fuel 0 [] s).
  now rewrite (number_loop_fuel fuel fuel').
Qed.

Lemma string_literal_fuel (fuel fuel' : nat) (s : Lexer) :
  fuel <= fuel' ->
  _string_literal fuel s <> OutOfFuel ->
  _string_literal fuel' s = _string_literal fuel s.
Proof.
  intros Hle H. unfold _string_literal in *.
  inner_call H (string_loop fuel [] (_advance s)).
  now rewrite (string_loop_fuel fuel fuel').
Qed.

Lemma recognise_fuel (fuel fuel' : nat) (s : Lexer) :
  fuel <= fuel' ->
  recognise fuel s <> OutOfFuel ->
  recognise fuel' s = recognise fuel s.
Proof.
  intros Hle H. unfold recognise in *.
  destruct (current_char s) as [c|]; [|reflexivity].
  destruct (isalpha c); [now apply id_or_keyword_fuel|].
  destruct (isdigit c); [now apply number_fuel|].
  destruct (Ascii.eqb c quote); [now apply string_literal_fuel|].
  reflexivity.
Qed.

Lemma token_loop_fuel (fuel : nat) :
  forall (fuel' : nat) (s : Lexer),
    fuel <= fuel' ->
    token_loop fuel s <> OutOfFuel ->
    token_loop fuel' s = token_loop fuel s.
Proof.
  induction fuel as [|fuel IH]; intros fuel' s Hle H; [now elim H|].
  destruct fuel' as [|fuel']; [lia|].
  assert (Hle' : fuel <= fuel') by lia.
  cbn [token_loop] in H |- *.
  destruct (current_char s) as [c|]; [|reflexivity].
  destruct (char_in c [" "; tab; newline]).
  - inner_call H (_skip_whitespace fuel s).
    rewrite (skip_whitespace_fuel fuel fuel') by assumption.
    destruct (_skip_whitespace fuel s); auto.
  - destruct (char_in c ["{"; "("]).
    + inner_call H (_skip_comment fuel s).
      rewrite (skip_comment_fuel fuel fuel') by assumption.
      destruct (_skip_comment fuel s) as [[] s1|e s1|]; auto.
      now apply recognise_fuel.
    + now apply recognise_fuel.
Qed.

(** ** Calls of [get_next_token] *)

Lemma get_next_token_cursor (pre suf : list ascii) :
  get_next_token (cursor pre suf) =
  token_loop (S (S (List.length suf))) (cursor pre suf).
Proof.
  unfold get_next_token. rewrite fuel_for_cursor. f_equal. lia.
Qed.

Lemma get_next_token_spec (pre suf : list ascii) :
  outcome pre suf (scanned pre) (get_next_token (cursor pre suf)).
Proof. rewrite get_next_token_cursor. apply token_loop_spec. lia. Qed.

Lemma reachable_cursor (src : list ascii) (s : Lexer) :
  reachable src s -> exists pre suf, src = pre ++ suf /\ s = cursor pre suf.
Proof.
  induction 1 as [|s s' t _ (pre & suf & -> & ->) E
                  |s s' e _ (pre & suf & -> & ->) E].
  - exists [], src. split; [reflexivity | apply Lexer_init_cursor].
  - pose proof (get_next_token_spec pre suf) as S. rewrite E in S.
    destruct S as (raw & rest & [-> ->] & _).
    exists (pre ++ raw), rest. split; [now rewrite app_assoc | reflexivity].
  - pose proof (get_next_token_spec pre suf) as S. rewrite E in S.
    destruct S as (raw & rest & [-> ->]).
    exists (pre ++ raw), rest. split; [now rewrite app_assoc | reflexivity].
Qed.

(** *** Where the end-of-input token comes from *)

Lemma recognise_not_eof (fuel : nat) (s s' : Lexer) (t : Token) :
  recognise fuel s = Return t s' -> tipo t <> EOF.
Proof.
  unfold recognise, _id_or_keyword, _number, _string_literal, two_char, _error.
  destruct (current_char s) as [c|]; [|discriminate].
  destruct (isalpha c).
  { destruct (id_loop fuel [] s) as [lexeme s1| |]; try discriminate.
    destruct (dict_get RESERVED_KEYWORDS (upper lexeme)) as [k|] eqn:D;
      intros [= <- _]; simpl; [|discriminate].
    now destruct (reserved_keyword_kind _ _ D) as (_ & NE & _). }
  destruct (isdigit c).
  { destruct (number_loop fuel 0 [] s); try discriminate.
    intros [= <- _]. discriminate. }
  destruct (Ascii.eqb c quote).
  { destruct (string_loop fuel [] (_advance s)) as [content s1| |];
      try discriminate.
    destruct (List.length content =? 1); intros [= <- _]; discriminate. }
  repeat match goal with
         | |- context [if ?b then _ else _] =>
             destruct b; [intros [= <- _]; discriminate|]
         end.
  destruct (single_char_tokens c) as [k|] eqn:S; [|discriminate].
  intros [= <- _]. simpl.
  now destruct (single_char_token_kind _ _ S) as (_ & NE & _).
Qed.

Lemma token_loop_eof (fuel : nat) :
  forall (s s' : Lexer) (t : Token),
    token_loop fuel s = Return t s' ->
    tipo t = EOF ->
    current_char s' = None /\ t = mkToken EOF (str "EOF") (line s').
Proof.
  induction fuel as [|fuel IH]; intros s s' t E HT; [discriminate|].
  cbn [token_loop] in E.
  destruct (current_char s) as [c|] eqn:C.
  - destruct (char_in c [" "; tab; newline]).
    + destruct (_skip_whitespace fuel s) as [u s1| |]; try discriminate.
      now apply (IH s1).
    + destruct (char_in c ["{"; "("]).
      * destruct (_skip_comment fuel s) as [[] s1| |]; try discriminate.
        -- now apply (IH s1).
        -- now apply recognise_not_eof in E.
      * now apply recognise_not_eof in E.
  - injection E as <- <-. now split.
Qed.

Lemma get_next_token_at_end (s : Lexer) :
  current_char s = None ->
  get_next_token s = Return (mkToken EOF (str "EOF") (line s)) s.
Proof.
  intros C. unfold get_next_token, fuel_for.
  rewrite Nat.add_comm. cbn [Nat.add token_loop]. now rewrite C.
Qed.

(** *** Facts about single characters, by their 256 cases *)

Lemma isalpha_not_other (c : ascii) :
  isalpha c = true ->
  whitespace c = false /\ char_in c ["{"; "("] = false.
Proof. each_char c; vm_compute; intros E; try discriminate E; now split. Qed.

Lemma isdigit_not_other (c : ascii) :
  isdigit c = true ->
  whitespace c = false /\ char_in c ["{"; "("] = false /\ isalpha c = false.
Proof.
  each_char c; vm_compute; intros E; try discriminate E; now repeat split.
Qed.

Lemma casing_letter (k c : ascii) :
  capital k = true ->
  Ascii.eqb c k || Ascii.eqb c (lower k) = true ->
  isalpha c = true /\ upper_char c = [ord k].
Proof.
  intros K E. apply orb_true_iff in E.
  destruct E as [E|E]; apply Ascii.eqb_eq in E; subst c; revert K;
    each_char k; vm_compute; intros E; try discriminate E; now split.
Qed.

(** *** Words *)

Lemma id_loop_run (w : list ascii) :
  forall (pre lexeme rest : list ascii) (fuel : nat),
    forallb isalnum w = true ->
    ends_run isalnum rest = true ->
    List.length (w ++ rest) < fuel ->
    id_loop fuel lexeme (cursor pre (w ++ rest)) =
    Return (lexeme ++ w) (cursor (pre ++ w) rest).
Proof.
  induction w as [|c w IH]; intros pre lexeme rest fuel A R Hf.
  - rewrite !app_nil_r. simpl app.
    destruct fuel; [inversion Hf|].
    destruct rest as [|d rest]; [reflexivity|].
    rewrite id_loop_eq. simpl in R. now destruct (isalnum d).
  - destruct fuel; [inversion Hf|]. simpl in Hf, A.
    apply andb_true_iff in A. destruct A as [Ac Aw].
    simpl app. rewrite id_loop_eq, Ac, (IH _ _ _ _ Aw R) by lia.
    now rewrite <- !app_assoc.
Qed.

Lemma word_token (pre w rest : list ascii) (c : ascii) :
  isalpha c = true ->
  forallb isalnum w = true ->
  ends_run isalnum rest = true ->
  get_next_token (cursor pre ((c :: w) ++ rest)) =
  Return (mkToken (word_kind (c :: w)) (c :: w) (1 + count_newlines pre))
         (cursor (pre ++ c :: w) rest).
Proof.
  intros Hc A R. rewrite get_next_token_cursor.
  destruct (isalpha_not_other c Hc) as (W & C).
  simpl app. cbn [token_loop cursor current_char hd_error].
  refold_cursor.
  unfold whitespace in W. rewrite W, C.
  unfold recognise. cbn [cursor current_char hd_error app]. rewrite Hc.
  refold_cursor.
  unfold _id_or_keyword.
  change (c :: w ++ rest) with ((c :: w) ++ rest).
  rewrite id_loop_run.
  - unfold word_kind. simpl app.
    now destruct (dict_get RESERVED_KEYWORDS (upper (c :: w))).
  - simpl. now rewrite (isalpha_isalnum c Hc).
  - exact R.
  - simpl. rewrite !length_app. simpl. lia.
Qed.

Lemma casing_word (kw : list ascii) :
  forall w : list ascii,
    forallb capital kw = true ->
    casing_of kw w = true ->
    forallb isalpha w = true /\ upper w = map ord kw.
Proof.
  induction kw as [|k kw IH]; intros [|c w] K C; try discriminate.
  - now split.
  - simpl in K, C. apply andb_true_iff in K, C.
    destruct K as [Kk Kkw], C as [Cc Cw].
    destruct (casing_letter k c Kk Cc) as (A & U).
    destruct (IH w Kkw Cw) as (Aw & Uw).
    split.
    + simpl. now rewrite A, Aw.
    + unfold upper in *. simpl. now rewrite U, Uw.
Qed.

Lemma forallb_isalpha_isalnum (w : list ascii) :
  forallb isalpha w = true -> forallb isalnum w = true.
Proof.
  induction w as [|c w IH]; [reflexivity|]. simpl.
  intros A. apply andb_true_iff in A. destruct A as [Ac Aw].
  now rewrite (isalpha_isalnum c Ac), IH.
Qed.

(** *** Runs of digits *)

Lemma number_char_not_continue (d : ascii) :
  number_char d = false ->
  isdigit d = false /\ Ascii.eqb d "." = false /\ Ascii.eqb (lower d) "e" = false.
Proof.
  unfold number_char. intros E.
  do 3 (apply orb_false_iff in E; destruct E as [E ?]). now repeat split.
Qed.

Lemma digits_run (w : list ascii) :
  forall (pre lexeme rest : list ascii) (fuel : nat),
    forallb isdigit w = true ->
    ends_run number_char rest = true ->
    List.length (w ++ rest) < fuel ->
    number_loop fuel 0 lexeme (cursor pre (w ++ rest)) =
    Return (lexeme ++ w) (cursor (pre ++ w) rest).
Proof.
  induction w as [|c w IH]; intros pre lexeme rest fuel A R Hf.
  - rewrite !app_nil_r. simpl app.
    destruct fuel; [inversion Hf|].
    destruct rest as [|d rest]; [reflexivity|].
    simpl in R. apply negb_true_iff in R.
    destruct (number_char_not_continue d R) as (D & P & E).
    cbn [number_loop cursor current_char hd_error and_isdigit and_lower_is_e
         is_char].
    now rewrite D, P, E.
  - destruct fuel; [inversion Hf|]. simpl in Hf, A.
    apply andb_true_iff in A. destruct A as [Ac Aw].
    simpl app.
    cbn [number_loop cursor current_char hd_error and_isdigit take].
    refold_cursor.
    rewrite Ac, advance_cursor, (IH _ _ _ _ Aw R) by lia.
    now rewrite <- !app_assoc.
Qed.

Lemma digits_token (pre w rest : list ascii) (c : ascii) :
  isdigit c = true ->
  forallb isdigit w = true ->
  ends_run number_char rest = true ->
  get_next_token (cursor pre ((c :: w) ++ rest)) =
  Return (mkToken NUM (c :: w) (1 + count_newlines pre))
         (cursor (pre ++ c :: w) rest).
Proof.
  intros Hc A R. rewrite get_next_token_cursor.
  destruct (isdigit_not_other c Hc) as (W & C & NA).
  simpl app. cbn [token_loop cursor current_char hd_error].
  refold_cursor.
  unfold whitespace in W. rewrite W, C.
  unfold recognise. cbn [cursor current_char hd_error app]. rewrite NA, Hc.
  refold_cursor.
  unfold _number.
  change (c :: w ++ rest) with ((c :: w) ++ rest).
  rewrite digits_run.
  - reflexivity.
  - simpl. now rewrite Hc.
  - exact R.
  - simpl. rewrite !length_app. simpl. lia.
Qed.

(** *** Single characters at the cursor *)

Lemma token_loop_recognise (fuel : nat) (pre suf : list ascii) (c : ascii) :
  whitespace c = false ->
  Ascii.eqb c "{" = false ->
  Ascii.eqb c "(" && is_char (hd_error suf) "*" = false ->
  token_loop (S fuel) (cursor pre (c :: suf)) =
  recognise fuel (cursor pre (c :: suf)).
Proof.
  intros W B P. cbn [token_loop cursor current_char hd_error].
  refold_cursor.
  unfold whitespace in W. rewrite W.
  destruct (char_in c ["{"; "("]); [|reflexivity].
  unfold _skip_comment. rewrite peek_cursor.
  cbn [cursor current_char hd_error is_char]. now rewrite B, P.
Qed.

Lemma recognise_plain (fuel : nat) (pre suf : list ascii) (c : ascii) :
  isalpha c = false ->
  isdigit c = false ->
  Ascii.eqb c quote = false ->
  recognise fuel (cursor pre (c :: suf)) =
  if Ascii.eqb c ":" && is_char (hd_error suf) "="
  then two_char OPASIGNA ":=" (cursor pre (c :: suf))
  else if Ascii.eqb c "<" && is_char (hd_error suf) ">"
  then two_char OPREL "<>" (cursor pre (c :: suf))
  else if Ascii.eqb c "<" && is_char (hd_error suf) "="
  then two_char OPREL "<=" (cursor pre (c :: suf))
  else if Ascii.eqb c ">" && is_char (hd_error suf) "="
  then two_char OPREL ">=" (cursor pre (c :: suf))
  else
    match single_char_tokens c with
    | Some token_type =>
        Return (mkToken token_type [c] (1 + count_newlines pre))
               (cursor (pre ++ [c]) suf)
    | None =>
        Raise (ErroLexico (1 + count_newlines pre) (CaractereInesperado c))
              (cursor pre (c :: suf))
    end.
Proof.
  intros A D Q. unfold recognise. cbn [cursor current_char hd_error].
  refold_cursor.
  now rewrite A, D, Q, peek_cursor, advance_cursor.
Qed.

Lemma lone_char_token (pre suf : list ascii) (c : ascii) (t : TokenType) :
  single_char_tokens c = Some t ->
  Ascii.eqb c "(" && is_char (hd_error suf) "*" = false ->
  Ascii.eqb c ":" && is_char (hd_error suf) "=" = false ->
  Ascii.eqb c "<" && is_char (hd_error suf) ">" = false ->
  Ascii.eqb c "<" && is_char (hd_error suf) "=" = false ->
  Ascii.eqb c ">" && is_char (hd_error suf) "=" = false ->
  get_next_token (cursor pre (c :: suf)) =
  Return (mkToken t [c] (1 + count_newlines pre)) (cursor (pre ++ [c]) suf).
Proof.
  intros S P B1 B2 B3 B4. rewrite get_next_token_cursor.
  assert (F : whitespace c = false /\ Ascii.eqb c "{" = false
              /\ isalpha c = false /\ isdigit c = false
              /\ Ascii.eqb c quote = false).
  { revert S. clear. each_char c; vm_compute; intros E;
      try discriminate E; now repeat split. }
  destruct F as (W & B & A & D & Q).
  rewrite token_loop_recognise, recognise_plain by assumption.
  now rewrite B1, B2, B3, B4, S.
Qed.

Lemma is_eof_false (t : TokenType) : t <> EOF -> is_eof t = false.
Proof. destruct t; intros H; try reflexivity. now elim H. Qed.

(** *** Every loop has a result *)

Lemma outcome_result {A : Type} (pre suf : list ascii)
  (post : A -> list ascii -> list ascii -> Prop) (r : Result A) :
  outcome pre suf post r -> r <> OutOfFuel.
Proof. intros O E. now rewrite E in O. Qed.

Lemma loops_have_results (pre suf : list ascii) (fuel : nat) :
  List.length suf < fuel ->
  _skip_whitespace fuel (cursor pre suf) <> OutOfFuel
  /\ _skip_comment fuel (cursor pre suf) <> OutOfFuel
  /\ (forall lexeme, id_loop fuel lexeme (cursor pre suf) <> OutOfFuel)
  /\ (forall state lexeme,
        state <= 5 ->
        number_loop fuel state lexeme (cursor pre suf) <> OutOfFuel)
  /\ (forall content, string_loop fuel content (cursor pre suf) <> OutOfFuel).
Proof.
  intros Hf. repeat split.
  - destruct (skip_whitespace_spec suf pre fuel Hf) as (ws & rest & E & _).
    now rewrite E.
  - exact (outcome_result _ _ _ _ (skip_comment_spec pre suf fuel Hf)).
  - intros lexeme.
    destruct (id_loop_spec suf pre lexeme fuel Hf) as (raw & rest & E & _).
    now rewrite E.
  - intros state lexeme Hs.
    exact (outcome_result _ _ _ _
             (number_loop_spec suf pre lexeme state fuel Hs Hf)).
  - intros content.
    pose proof (string_loop_spec fuel suf pre content Hf) as S.
    destruct (decode suf) as [[dec rest]|].
    + destruct S as (raw & _ & E). now rewrite E.
    + now rewrite S.
Qed.

(** ** The scanner on small texts *)

Example scan_numbers :
  tokenize (str "123 12.5 1.0e-5 3E2") =
  Return [mkToken NUM (str "123") 1; mkToken NUM (str "12.5") 1;
          mkToken NUM (str "1.0e-5") 1; mkToken NUM (str "3E2") 1]
         (cursor (str "123 12.5 1.0e-5 3E2") []).
Proof. vm_compute. reflexivity. Qed.

Example scan_statement :
  tokenize (str "while x1 <= 10 do x1 := x1 + 1;") =
  Return [mkToken WHILE (str "while") 1; mkToken ID (str "x1") 1;
          mkToken OPREL (str "<=") 1; mkToken NUM (str "10") 1;
          mkToken DO (str "do") 1; mkToken ID (str "x1") 1;
          mkToken OPASIGNA (str ":=") 1; mkToken ID (str "x1") 1;
          mkToken OPSUMA (str "+") 1; mkToken NUM (str "1") 1;
          mkToken PONTO_VIRG (str ";") 1]
         (cursor (str "while x1 <= 10 do x1 := x1 + 1;") []).
Proof. vm_compute. reflexivity. Qed.

Example scan_lines :
  tokenize (str "a" ++ [newline; newline] ++ str "(* b" ++ [newline]
            ++ str "*) c") =
  Return [mkToken ID (str "a") 1; mkToken ID (str "c") 4]
         (cursor (str "a" ++ [newline; newline] ++ str "(* b" ++ [newline]
                  ++ str "*) c") []).
Proof. vm_compute. reflexivity. Qed.

Example scan_unterminated_comment :
  tokenize (str "x {y") =
  Raise (ErroLexico 1 ComentarioChaveNaoFinalizado) (cursor (str "x {y") []).
Proof. vm_compute. reflexivity. Qed.

Example scan_unterminated_literal :
  tokenize (str "'abc") =
  Raise (ErroLexico 1 StringNaoFinalizada) (cursor (str "'abc") []).
Proof. vm_compute. reflexivity. Qed.

Example scan_underscore :
  tokenize (str "a_b") =
  Raise (ErroLexico 1 (CaractereInesperado "_")) (cursor (str "a") (str "_b")).
Proof. vm_compute. reflexivity. Qed.

(** * The properties of the specification *)

(** ** Malformed numbers *)

(** C1, on the code as it is.  A number cut short after its point or after
    the sign of its exponent raises the lexical error of the scanner, with
    the current line and a message of the class [MalformedNumber]: so do
    ["12."] and ["1e+"] at the end of the text, and ["1e"] followed by a
    blank.  But ["1e"] at the end of the text raises the [TypeError] of the
    interpreter, which has neither line nor message of the scanner: in
    state 3 the test [c in '+-'] is made on [None], without the guard
    [c and ...] of the other states. *)
Theorem malformed_number_errors :
  get_next_token (Lexer_init (str "12.")) =
    Raise (ErroLexico 1 (DigitoEsperadoAposPonto (str "12.")))
          (cursor (str "12.") [])
  /\ error_kind (DigitoEsperadoAposPonto (str "12.")) = MalformedNumber
  /\ get_next_token (Lexer_init (str "1e+")) =
       Raise (ErroLexico 1 (DigitoEsperadoAposSinal (str "1e+")))
             (cursor (str "1e+") [])
  /\ error_kind (DigitoEsperadoAposSinal (str "1e+")) = MalformedNumber
  /\ get_next_token (Lexer_init (str "1e ")) =
       Raise (ErroLexico 1 (SinalOuDigitoEsperadoAposE (str "1e")))
             (cursor (str "1e") (str " "))
  /\ get_next_token (Lexer_init (str "1e")) =
       Raise TypeError (cursor (str "1e") [])
  /\ forall (pre lexeme : list ascii) (fuel : nat),
       number_loop (S fuel) 3 lexeme (cursor pre []) =
       Raise TypeError (cursor pre []).
Proof.
  repeat split; try (vm_compute; reflexivity).
Qed.

(** ** Lines and lexemes *)

(** C2 as stated fails: a quoted literal runs over line ends, and its
    lexeme keeps them.  The text is a quote, [a], a newline, [b], a quote. *)
Lemma literal_spans_newline :
  get_next_token (Lexer_init [quote; "a"; newline; "b"; quote]) =
    Return (mkToken LITERAL ["a"; newline; "b"] 1)
           (cursor [quote; "a"; newline; "b"; quote] [])
  /\ In newline (lexema (mkToken LITERAL ["a"; newline; "b"] 1)).
Proof.
  split; [vm_compute; reflexivity | simpl; auto].
Qed.

(** C2, amended.  Every token a call returns from a reachable state has
    as its line the 1-based line of its first character: one more than the
    newlines of the text [before] it.  The end-of-input token stands at
    the end of the text, is read from no character, and has the fixed
    lexeme [EOF], which holds no newline.  The lexeme of a token that is
    neither the end-of-input token nor a quoted literal is the text it was
    read from, is not empty and holds no newline.  A quoted literal opens
    with a quote and its lexeme is the decoding of what follows, whatever
    characters that has, newlines among them. *)
Theorem token_line_is_start_line (src : list ascii) (s s' : Lexer) (t : Token) :
  reachable src s ->
  get_next_token s = Return t s' ->
  exists before text rest,
    src = before ++ text ++ rest
    /\ pos s <= List.length before
    /\ s' = cursor (before ++ text) rest
    /\ linha t = 1 + count_newlines before
    /\ if is_eof (tipo t)
       then text = [] /\ rest = []
            /\ lexema t = str "EOF" /\ ~ In newline (lexema t)
       else if is_literal (tipo t)
       then exists body,
              text = quote :: body
              /\ decode (body ++ rest) = Some (lexema t, rest)
       else text = lexema t /\ text <> [] /\ ~ In newline (lexema t).
Proof.
  intros R E.
  destruct (reachable_cursor src s R) as (pre & suf & -> & ->).
  pose proof (get_next_token_spec pre suf) as S. rewrite E in S.
  destruct S as (raw & rest & [-> ->] & skipped & text & -> & P).
  exists (pre ++ skipped), text, rest.
  split; [now rewrite <- !app_assoc|].
  split; [simpl; rewrite length_app; lia|].
  split; [now rewrite <- !app_assoc|].
  destruct P as [(L & NE & NF & P)|(-> & -> & ->)].
  - split; [exact L|]. rewrite (is_eof_false _ NF).
    destruct (is_literal (tipo t)); [exact P|].
    destruct P as [<- N]. now repeat split.
  - cbn [tipo lexema linha is_eof]. repeat split.
    intros [H|[H|[H|[]]]]; discriminate H.
Qed.

Lemma token_line_is_start_line_witness :
  reachable (newline :: str "x") (Lexer_init (newline :: str "x"))
  /\ get_next_token (Lexer_init (newline :: str "x")) = Return (mkToken ID (str "x") 2) (cursor (newline :: str "x") [])
  /\ (exists before text rest,
       newline :: str "x" = before ++ text ++ rest
       /\ pos (Lexer_init (newline :: str "x")) <= List.length before
       /\ cursor (newline :: str "x") [] = cursor (before ++ text) rest
       /\ linha (mkToken ID (str "x") 2) = 1 + count_newlines before
       /\ if is_eof (tipo (mkToken ID (str "x") 2))
          then text = [] /\ rest = []
               /\ lexema (mkToken ID (str "x") 2) = str "EOF"
               /\ ~ In newline (lexema (mkToken ID (str "x") 2))
          else if is_literal (tipo (mkToken ID (str "x") 2))
          then exists body,
                 text = quote :: body
                 /\ decode (body ++ rest) = Some (lexema (mkToken ID (str "x") 2), rest)
          else text = lexema (mkToken ID (str "x") 2) /\ text <> []
               /\ ~ In newline (lexema (mkToken ID (str "x") 2)))
  /\ reachable (newline :: str "x") (cursor (newline :: str "x") [])
  /\ get_next_token (cursor (newline :: str "x") []) = Return (mkToken EOF (str "EOF") 2) (cursor (newline :: str "x") [])
  /\ (exists before text rest,
       newline :: str "x" = before ++ text ++ rest
       /\ pos (cursor (newline :: str "x") []) <= List.length before
       /\ cursor (newline :: str "x") [] = cursor (before ++ text) rest
       /\ linha (mkToken EOF (str "EOF") 2) = 1 + count_newlines before
       /\ if is_eof (tipo (mkToken EOF (str "EOF") 2))
          then text = [] /\ rest = []
               /\ lexema (mkToken EOF (str "EOF") 2) = str "EOF"
               /\ ~ In newline (lexema (mkToken EOF (str "EOF") 2))
          else if is_literal (tipo (mkToken EOF (str "EOF") 2))
          then exists body,
                 text = quote :: body
                 /\ decode (body ++ rest) = Some (lexema (mkToken EOF (str "EOF") 2), rest)
          else text = lexema (mkToken EOF (str "EOF") 2) /\ text <> []
               /\ ~ In newline (lexema (mkToken EOF (str "EOF") 2))).
Proof.
  assert (R : reachable (newline :: str "x") (cursor (newline :: str "x") [])).
  { apply (reachable_return (newline :: str "x") (Lexer_init (newline :: str "x")) _ (mkToken ID (str "x") 2));
      [apply reachable_init | reflexivity]. }
  split; [apply reachable_init|]. split; [reflexivity|].
  split.
  { apply (token_line_is_start_line (newline :: str "x") (Lexer_init (newline :: str "x")));
      [apply reachable_init | reflexivity]. }
  split; [exact R|]. split; [reflexivity|].
  apply (token_line_is_start_line (newline :: str "x") (cursor (newline :: str "x") []));
    [exact R | reflexivity].
Defined.

(** ** Quoted literals *)

(** C3.  The text after an opening quote is decoded as the specification
    says, and the token is a [CAR] exactly when the decoded content has one
    character, a [LITERAL] otherwise; its lexeme is the content, and the
    scanner is left after the closing quote.  So ['a'] is the character
    [a], ['abc'] a string, [''''] the character quote and [''] the empty
    string. *)
Theorem literal_kind_by_decoded_length :
  (forall (pre body content rest : list ascii),
      decode body = Some (content, rest) ->
      exists text,
        quote :: body = text ++ rest
        /\ get_next_token (cursor pre (quote :: body)) =
           Return (mkToken (if List.length content =? 1 then CAR else LITERAL)
                           content (1 + count_newlines pre))
                  (cursor (pre ++ text) rest))
  /\ tokenize (str "'a'") =
       Return [mkToken CAR (str "a") 1] (cursor (str "'a'") [])
  /\ tokenize (str "'abc'") =
       Return [mkToken LITERAL (str "abc") 1] (cursor (str "'abc'") [])
  /\ tokenize (str "''''") =
       Return [mkToken CAR [quote] 1] (cursor (str "''''") [])
  /\ tokenize (str "''") =
       Return [mkToken LITERAL [] 1] (cursor (str "''") []).
Proof.
  split; [|repeat split; vm_compute; reflexivity].
  intros pre body content rest D.
  rewrite get_next_token_cursor, token_loop_recognise by reflexivity.
  unfold recognise. cbn [cursor current_char hd_error].
  change (if isalpha quote then ?a else ?b) with b.
  change (if isdigit quote then ?a else ?b) with b.
  change (if Ascii.eqb quote quote then ?a else ?b) with a.
  refold_cursor.
  unfold _string_literal. rewrite advance_cursor.
  pose proof (string_loop_spec (S (List.length (quote :: body))) body
                (pre ++ [quote]) []) as S.
  rewrite D in S. destruct S as (raw & -> & E); [simpl; lia|].
  exists (quote :: raw). split; [reflexivity|].
  rewrite E. simpl app. rewrite <- app_assoc.
  now destruct (List.length content =? 1).
Qed.

Lemma literal_kind_by_decoded_length_witness :
  decode (str "it''s' x") = Some (str "it's", str " x")
  /\ exists text,
       quote :: str "it''s' x" = text ++ str " x"
       /\ get_next_token (cursor (str "y ") (quote :: str "it''s' x")) =
          Return (mkToken (if List.length (str "it's") =? 1 then CAR else LITERAL)
                          (str "it's") (1 + count_newlines (str "y ")))
                 (cursor (str "y " ++ text) (str " x")).
Proof.
  split; [reflexivity|].
  apply (proj1 literal_kind_by_decoded_length). reflexivity.
Defined.

(** ** The end of the input *)

(** C4.  Once a call has returned the end-of-input token, every later call
    returns that same token, with its line, raises nothing, and leaves the
    scanner as it was. *)
Theorem end_of_input_is_terminal (s s' : Lexer) (t : Token) :
  get_next_token s = Return t s' ->
  tipo t = EOF ->
  forall n : nat, call_again n s' = Return t s'.
Proof.
  intros E HT.
  destruct (token_loop_eof _ _ _ _ E HT) as (C & ->).
  induction n as [|n IH]; simpl.
  - now apply get_next_token_at_end.
  - now rewrite (get_next_token_at_end s' C).
Qed.

Lemma end_of_input_is_terminal_witness :
  get_next_token (cursor (str "x ") []) =
    Return (mkToken EOF (str "EOF") 1) (cursor (str "x ") [])
  /\ tipo (mkToken EOF (str "EOF") 1) = EOF
  /\ call_again 7 (cursor (str "x ") []) =
       Return (mkToken EOF (str "EOF") 1) (cursor (str "x ") []).
Proof.
  split; [reflexivity|]. split; [reflexivity|].
  apply (end_of_input_is_terminal (cursor (str "x ") [])); reflexivity.
Defined.

(** ** Numbers and the range operator *)

(** C5.  ["1.."] is the number ["1"] and two points: in state 0 a point
    followed by a point ends the number, and the scanner stays before
    both. *)
Theorem number_stops_before_range :
  tokenize (str "1..") =
    Return [mkToken NUM (str "1") 1; mkToken PONTO (str ".") 1;
            mkToken PONTO (str ".") 1]
           (cursor (str "1..") [])
  /\ forall (pre lexeme suf : list ascii) (fuel : nat),
       number_loop (S fuel) 0 lexeme (cursor pre ("." :: "." :: suf)) =
       Return lexeme (cursor pre ("." :: "." :: suf)).
Proof.
  split; [vm_compute; reflexivity|].
  intros pre lexeme suf fuel.
  cbn [number_loop cursor current_char hd_error and_isdigit is_char].
  refold_cursor.
  now rewrite peek_cursor.
Qed.

(** ** Reserved words *)

(** C6.  Each of the nine reserved words PROGRAM, VAR, BEGIN, END, IF,
    THEN, ELSE, WHILE and DO, with each of its letters in either case, is
    scanned as the token of that word, and the lexeme is the text as
    written: the table, whose keys are these nine words, is looked up
    with the uppercased lexeme. *)
Theorem keyword_any_casing (name : string) (kind : TokenType)
  (pre w rest : list ascii) :
  In (name, kind) [("PROGRAM", PROGRAM); ("VAR", VAR); ("BEGIN", BEGIN);
                     ("END", END); ("IF", IF'); ("THEN", THEN);
                     ("ELSE", ELSE); ("WHILE", WHILE); ("DO", DO)]%string ->
  casing_of (str name) w = true ->
  ends_run isalnum rest = true ->
  dict_get RESERVED_KEYWORDS (upper w) = Some kind
  /\ get_next_token (cursor pre (w ++ rest)) =
     Return (mkToken kind w (1 + count_newlines pre)) (cursor (pre ++ w) rest).
Proof.
  intros I C R.
  assert (K : forallb capital (str name) = true
              /\ dict_get RESERVED_KEYWORDS (codepoints name) = Some kind).
  { simpl in I.
    repeat (destruct I as [[= <- <-]|I]; [now split|]). destruct I. }
  destruct K as (K & D).
  destruct (casing_word (str name) w K C) as (A & U).
  fold (codepoints name) in U.
  assert (D' : dict_get RESERVED_KEYWORDS (upper w) = Some kind)
    by now rewrite U.
  split; [exact D'|].
  destruct w as [|c w].
  { unfold codepoints in D. destruct (str name); [discriminate D|].
    discriminate C. }
  simpl in A. apply andb_true_iff in A. destruct A as [Ac Aw].
  rewrite (word_token pre w rest c Ac (forallb_isalpha_isalnum w Aw) R).
  unfold word_kind. now rewrite D'.
Qed.

Lemma keyword_any_casing_witness :
  ends_run isalnum (str " x") = true
  /\ (casing_of (str "PROGRAM") (str "program") = true
      /\ get_next_token (cursor (str "y;") (str "program" ++ str " x")) =
         Return (mkToken PROGRAM (str "program") (1 + count_newlines (str "y;")))
                (cursor (str "y;" ++ str "program") (str " x")))
  /\ (casing_of (str "VAR") (str "Var") = true
      /\ get_next_token (cursor (str "y;") (str "Var" ++ str " x")) =
         Return (mkToken VAR (str "Var") (1 + count_newlines (str "y;")))
                (cursor (str "y;" ++ str "Var") (str " x")))
  /\ (casing_of (str "BEGIN") (str "BEGIN") = true
      /\ get_next_token (cursor (str "y;") (str "BEGIN" ++ str " x")) =
         Return (mkToken BEGIN (str "BEGIN") (1 + count_newlines (str "y;")))
                (cursor (str "y;" ++ str "BEGIN") (str " x")))
  /\ (casing_of (str "END") (str "eNd") = true
      /\ get_next_token (cursor (str "y;") (str "eNd" ++ str " x")) =
         Return (mkToken END (str "eNd") (1 + count_newlines (str "y;")))
                (cursor (str "y;" ++ str "eNd") (str " x")))
  /\ (casing_of (str "IF") (str "If") = true
      /\ get_next_token (cursor (str "y;") (str "If" ++ str " x")) =
         Return (mkToken IF' (str "If") (1 + count_newlines (str "y;")))
                (cursor (str "y;" ++ str "If") (str " x")))
  /\ (casing_of (str "THEN") (str "tHEN") = true
      /\ get_next_token (cursor (str "y;") (str "tHEN" ++ str " x")) =
         Return (mkToken THEN (str "tHEN") (1 + count_newlines (str "y;")))
                (cursor (str "y;" ++ str "tHEN") (str " x")))
  /\ (casing_of (str "ELSE") (str "elsE") = true
      /\ get_next_token (cursor (str "y;") (str "elsE" ++ str " x")) =
         Return (mkToken ELSE (str "elsE") (1 + count_newlines (str "y;")))
                (cursor (str "y;" ++ str "elsE") (str " x")))
  /\ (casing_of (str "WHILE") (str "While") = true
      /\ get_next_token (cursor (str "y;") (str "While" ++ str " x")) =
         Return (mkToken WHILE (str "While") (1 + count_newlines (str "y;")))
                (cursor (str "y;" ++ str "While") (str " x")))
  /\ (casing_of (str "DO") (str "dO") = true
      /\ get_next_token (cursor (str "y;") (str "dO" ++ str " x")) =
         Return (mkToken DO (str "dO") (1 + count_newlines (str "y;")))
                (cursor (str "y;" ++ str "dO") (str " x"))).
Proof.
  split; [reflexivity|].
  repeat match goal with
         | |- (_ /\ _) /\ _ => split
         end.
  - split; [reflexivity|].
    apply (keyword_any_casing "PROGRAM" PROGRAM (str "y;") (str "program") (str " x"));
      [simpl; auto 15 | reflexivity | reflexivity].
  - split; [reflexivity|].
    apply (keyword_any_casing "VAR" VAR (str "y;") (str "Var") (str " x"));
      [simpl; auto 15 | reflexivity | reflexivity].
  - split; [reflexivity|].
    apply (keyword_any_casing "BEGIN" BEGIN (str "y;") (str "BEGIN") (str " x"));
      [simpl; auto 15 | reflexivity | reflexivity].
  - split; [reflexivity|].
    apply (keyword_any_casing "END" END (str "y;") (str "eNd") (str " x"));
      [simpl; auto 15 | reflexivity | reflexivity].
  - split; [reflexivity|].
    apply (keyword_any_casing "IF" IF' (str "y;") (str "If") (str " x"));
      [simpl; auto 15 | reflexivity | reflexivity].
  - split; [reflexivity|].
    apply (keyword_any_casing "THEN" THEN (str "y;") (str "tHEN") (str " x"));
      [simpl; auto 15 | reflexivity | reflexivity].
  - split; [reflexivity|].
    apply (keyword_any_casing "ELSE" ELSE (str "y;") (str "elsE") (str " x"));
      [simpl; auto 15 | reflexivity | reflexivity].
  - split; [reflexivity|].
    apply (keyword_any_casing "WHILE" WHILE (str "y;") (str "While") (str " x"));
      [simpl; auto 15 | reflexivity | reflexivity].
  - split; [reflexivity|].
    apply (keyword_any_casing "DO" DO (str "y;") (str "dO") (str " x"));
      [simpl; auto 15 | reflexivity | reflexivity].
Defined.

(** ** Letters and digits *)

(** C7 as stated fails: the letter e with acute accent, U+00E9, is no
    ASCII character and yet is scanned as an identifier. *)
Lemma non_ascii_letter_is_identifier :
  (128 <= ord "233")%N
  /\ get_next_token (Lexer_init ["233"]) =
     Return (mkToken ID ["233"] 1) (cursor ["233"] []).
Proof. split; [discriminate | reflexivity]. Qed.

(** C7, amended.  Letters and digits are those of [str.isalpha],
    [str.isalnum] and [str.isdigit].  On ASCII these are the letters A-Z,
    a-z and the digits 0-9.  Any character [isalpha] accepts starts a word
    that runs over the characters [isalnum] accepts, and any character
    [isdigit] accepts starts a number that runs over such digits: this
    holds of letters and digits outside ASCII, as U+00E9 and the
    superscript two U+00B2.  Where a token starts, a character no rule
    takes is refused with the error of the class [UnexpectedCharacter], at
    the current line.  Inside a word the test is [isalnum] alone, which
    takes more than letters and digits: the fraction one half, U+00BD, is
    refused where a token starts and goes on a word that has started. *)
Theorem letters_and_digits_of_python :
  (forall c : ascii,
      (ord c < 128)%N ->
      isalpha c = ascii_letter c /\ isdigit c = ascii_digit c
      /\ isalnum c = ascii_letter c || ascii_digit c)
  /\ (forall (pre w rest : list ascii) (c : ascii),
        isalpha c = true ->
        forallb isalnum w = true ->
        ends_run isalnum rest = true ->
        get_next_token (cursor pre ((c :: w) ++ rest)) =
        Return (mkToken (word_kind (c :: w)) (c :: w) (1 + count_newlines pre))
               (cursor (pre ++ c :: w) rest))
  /\ (forall (pre w rest : list ascii) (c : ascii),
        isdigit c = true ->
        forallb isdigit w = true ->
        ends_run number_char rest = true ->
        get_next_token (cursor pre ((c :: w) ++ rest)) =
        Return (mkToken NUM (c :: w) (1 + count_newlines pre))
               (cursor (pre ++ c :: w) rest))
  /\ (forall (pre suf : list ascii) (c : ascii),
        no_rule c = true ->
        get_next_token (cursor pre (c :: suf)) =
        Raise (ErroLexico (1 + count_newlines pre) (CaractereInesperado c))
              (cursor pre (c :: suf))
        /\ error_kind (CaractereInesperado c) = UnexpectedCharacter)
  /\ isalpha "233" = true /\ (128 <= ord "233")%N
  /\ isdigit "178" = true /\ (128 <= ord "178")%N
  /\ no_rule "189" = true /\ isalnum "189" = true
  /\ isalpha "189" = false /\ isdigit "189" = false.
Proof.
  split.
  { intros c. each_char c; vm_compute; intros E; try discriminate E;
      now repeat split. }
  split; [exact word_token|].
  split; [exact digits_token|].
  split; [|repeat split; discriminate].
  intros pre suf c N. split; [|reflexivity].
  assert (F : whitespace c = false /\ Ascii.eqb c "{" = false
              /\ Ascii.eqb c "(" = false /\ Ascii.eqb c ":" = false
              /\ Ascii.eqb c "<" = false /\ Ascii.eqb c ">" = false
              /\ isalpha c = false /\ isdigit c = false
              /\ Ascii.eqb c quote = false /\ single_char_tokens c = None).
  { revert N. clear. each_char c; vm_compute; intros E;
      try discriminate E; now repeat split. }
  destruct F as (W & B & P & B1 & B2 & B3 & A & D & Q & S).
  rewrite get_next_token_cursor, token_loop_recognise, recognise_plain;
    try assumption; [|now rewrite P].
  now rewrite B1, B2, B3, S.
Qed.

Lemma letters_and_digits_of_python_witness :
  isalpha "233" = true
  /\ forallb isalnum ["t"; "178"; "189"] = true
  /\ ends_run isalnum (str " + 1") = true
  /\ get_next_token
       (cursor [] (("233" :: ["t"; "178"; "189"]) ++ str " + 1")) =
     Return (mkToken (word_kind ("233" :: ["t"; "178"; "189"]))
                     ("233" :: ["t"; "178"; "189"]) (1 + count_newlines []))
            (cursor ([] ++ "233" :: ["t"; "178"; "189"]) (str " + 1"))
  /\ no_rule "189" = true
  /\ get_next_token (cursor (str "x ") ("189" :: str "y")) =
     Raise (ErroLexico (1 + count_newlines (str "x ")) (CaractereInesperado "189"))
           (cursor (str "x ") ("189" :: str "y")).
Proof.
  split; [reflexivity|]. split; [reflexivity|]. split; [reflexivity|].
  split; [apply (proj1 (proj2 letters_and_digits_of_python)); reflexivity|].
  split; [reflexivity|].
  apply (proj1 (proj2 (proj2 (proj2 letters_and_digits_of_python)))
           (str "x ") (str "y") "189").
  reflexivity.
Defined.

(** ** Comments *)

(** C8.  A comment of either kind leaves no token: both texts give the
    reserved word [VAR] and the identifier [x], and nothing else.  A left
    parenthesis that no star follows opens no comment and is the token
    [ABRE_PAR]. *)
Theorem comments_leave_no_token :
  tokenize (str "VAR {comment} x") =
    Return [mkToken VAR (str "VAR") 1; mkToken ID (str "x") 1]
           (cursor (str "VAR {comment} x") [])
  /\ tokenize (str "VAR(*c*) x") =
       Return [mkToken VAR (str "VAR") 1; mkToken ID (str "x") 1]
              (cursor (str "VAR(*c*) x") [])
  /\ forall pre suf : list ascii,
       is_char (hd_error suf) "*" = false ->
       get_next_token (cursor pre ("(" :: suf)) =
       Return (mkToken ABRE_PAR (str "(") (1 + count_newlines pre))
              (cursor (pre ++ str "(") suf).
Proof.
  split; [vm_compute; reflexivity|].
  split; [vm_compute; reflexivity|].
  intros pre suf H. apply lone_char_token; try reflexivity.
  simpl. exact H.
Qed.

Lemma comments_leave_no_token_witness :
  is_char (hd_error (str "a)")) "*" = false
  /\ get_next_token (cursor (str "f") ("(" :: str "a)")) =
     Return (mkToken ABRE_PAR (str "(") (1 + count_newlines (str "f")))
            (cursor (str "f" ++ str "(") (str "a)")).
Proof.
  split; [reflexivity|].
  apply (proj2 (proj2 comments_leave_no_token)). reflexivity.
Defined.

(** ** Operators *)

(** C9.  [:=] is one token [OPASIGNA] of lexeme [:=], wherever it stands,
    and never a colon and an equals sign; a colon that no equals sign
    follows is the token [DOIS_PONTOS]. *)
Theorem assignment_is_one_token :
  tokenize (str ":=") =
    Return [mkToken OPASIGNA (str ":=") 1] (cursor (str ":=") [])
  /\ (forall pre suf : list ascii,
        get_next_token (cursor pre (":" :: "=" :: suf)) =
        Return (mkToken OPASIGNA (str ":=") (1 + count_newlines pre))
               (cursor (pre ++ str ":=") suf))
  /\ forall pre suf : list ascii,
       is_char (hd_error suf) "=" = false ->
       get_next_token (cursor pre (":" :: suf)) =
       Return (mkToken DOIS_PONTOS (str ":") (1 + count_newlines pre))
              (cursor (pre ++ str ":") suf).
Proof.
  split; [vm_compute; reflexivity|]. split.
  - intros pre suf.
    rewrite get_next_token_cursor, token_loop_recognise, recognise_plain
      by reflexivity.
    cbn [hd_error is_char Ascii.eqb Bool.eqb andb]. unfold two_char.
    rewrite !advance_cursor, <- app_assoc. reflexivity.
  - intros pre suf H. apply lone_char_token; try reflexivity.
    simpl. exact H.
Qed.

Lemma assignment_is_one_token_witness :
  is_char (hd_error (str " integer")) "=" = false
  /\ get_next_token (cursor (str "x") (":" :: str " integer")) =
     Return (mkToken DOIS_PONTOS (str ":") (1 + count_newlines (str "x")))
            (cursor (str "x" ++ str ":") (str " integer")).
Proof.
  split; [reflexivity|].
  apply (proj2 (proj2 assignment_is_one_token)). reflexivity.
Defined.

(** ** Termination *)

(** C10.  From every state a scanner can reach on a text, a call ends: it
    returns a token or raises, and more fuel than the text left and two
    gives the same result.  So does every loop inside it, at every place
    of the text: each iteration takes a character, returns or raises, and
    one iteration more than the characters left is enough. *)
Theorem get_next_token_terminates (src : list ascii) (s : Lexer) :
  reachable src s ->
  get_next_token s <> OutOfFuel
  /\ (forall fuel : nat,
        fuel_for s <= fuel -> token_loop fuel s = get_next_token s)
  /\ forall (pre suf : list ascii) (fuel : nat),
       src = pre ++ suf ->
       List.length suf < fuel ->
       _skip_whitespace fuel (cursor pre suf) <> OutOfFuel
       /\ _skip_comment fuel (cursor pre suf) <> OutOfFuel
       /\ (forall lexeme, id_loop fuel lexeme (cursor pre suf) <> OutOfFuel)
       /\ (forall state lexeme,
             state <= 5 ->
             number_loop fuel state lexeme (cursor pre suf) <> OutOfFuel)
       /\ (forall content,
             string_loop fuel content (cursor pre suf) <> OutOfFuel).
Proof.
  intros R. split; [|split].
  - destruct (reachable_cursor src s R) as (pre & suf & -> & ->).
    exact (outcome_result _ _ _ _ (get_next_token_spec pre suf)).
  - destruct (reachable_cursor src s R) as (pre & suf & -> & ->).
    intros fuel Hf. apply token_loop_fuel; [exact Hf|].
    exact (outcome_result _ _ _ _ (get_next_token_spec pre suf)).
  - intros pre suf fuel _. apply loops_have_results.
Qed.

Lemma get_next_token_terminates_witness :
  reachable (str "{a} b") (Lexer_init (str "{a} b"))
  /\ get_next_token (Lexer_init (str "{a} b")) <> OutOfFuel
  /\ forall fuel : nat,
       fuel_for (Lexer_init (str "{a} b")) <= fuel ->
       token_loop fuel (Lexer_init (str "{a} b")) =
       get_next_token (Lexer_init (str "{a} b")).
Proof.
  split; [apply reachable_init|].
  destruct (get_next_token_terminates (str "{a} b") (Lexer_init (str "{a} b")))
    as (T & F & _); [apply reachable_init|].
  split; [exact T | exact F].
Defined.

(** * Further properties of the scanner *)

(** ** The state between calls *)

(** X1.  Between calls the scanner holds the text it was built on, a
    position inside it or at its end, the character at that position, and
    as its line one more than the newlines before that position. *)
Theorem state_between_calls (src : list ascii) (s : Lexer) :
  reachable src s ->
  source s = src
  /\ pos s <= List.length src
  /\ current_char s = nth_error src (pos s)
  /\ line s = 1 + count_newlines (firstn (pos s) src).
Proof.
  intros R. destruct (reachable_cursor src s R) as (pre & suf & -> & ->).
  simpl. repeat split.
  - rewrite length_app. lia.
  - rewrite nth_error_app2, Nat.sub_diag by lia. now destruct suf.
  - now rewrite firstn_app, Nat.sub_diag, firstn_all, firstn_O, app_nil_r.
Qed.

Lemma state_between_calls_witness :
  reachable (str "a b") (cursor (str "a") (str " b"))
  /\ source (cursor (str "a") (str " b")) = str "a b"
  /\ pos (cursor (str "a") (str " b")) <= List.length (str "a b")
  /\ current_char (cursor (str "a") (str " b")) =
     nth_error (str "a b") (pos (cursor (str "a") (str " b")))
  /\ line (cursor (str "a") (str " b")) =
     1 + count_newlines (firstn (pos (cursor (str "a") (str " b"))) (str "a b")).
Proof.
  assert (R : reachable (str "a b") (cursor (str "a") (str " b"))).
  { apply (reachable_return (str "a b") (Lexer_init (str "a b")) _
             (mkToken ID (str "a") 1)); [apply reachable_init | reflexivity]. }
  split; [exact R|].
  exact (state_between_calls (str "a b") (cursor (str "a") (str " b")) R).
Defined.

(** X2.  A call never moves the scanner back and never changes the text.
    A token other than the end-of-input token takes at least one
    character; the end-of-input token is returned only with the whole
    text consumed. *)
Theorem call_moves_forward (src : list ascii) (s : Lexer) :
  reachable src s ->
  match get_next_token s with
  | Return t s' =>
      source s' = source s
      /\ if is_eof (tipo t) then pos s <= pos s' /\ pos s' = List.length src
         else pos s < pos s' <= List.length src
  | Raise e s' =>
      source s' = source s /\ pos s <= pos s' <= List.length src
  | OutOfFuel => False
  end.
Proof.
  intros R. destruct (reachable_cursor src s R) as (pre & suf & -> & ->).
  pose proof (get_next_token_spec pre suf) as S.
  destruct (get_next_token (cursor pre suf)) as [t s'|e s'|]; [| |exact S].
  - destruct S as (raw & rest & [-> ->] & skipped & text & -> & P).
    simpl. rewrite !length_app.
    split; [now rewrite <- !app_assoc|].
    destruct P as [(_ & NE & NF & _)|(-> & -> & ->)].
    + rewrite (is_eof_false _ NF). destruct text; [congruence|]. simpl. lia.
    + simpl. lia.
  - destruct S as (raw & rest & [-> ->]). simpl. rewrite !length_app.
    split; [now rewrite <- !app_assoc | lia].
Qed.

Lemma call_moves_forward_witness :
  reachable (str "a b") (Lexer_init (str "a b"))
  /\ match get_next_token (Lexer_init (str "a b")) with
     | Return t s' =>
         source s' = source (Lexer_init (str "a b"))
         /\ if is_eof (tipo t)
            then pos (Lexer_init (str "a b")) <= pos s'
                 /\ pos s' = List.length (str "a b")
            else pos (Lexer_init (str "a b")) < pos s' <= List.length (str "a b")
     | Raise e s' =>
         source s' = source (Lexer_init (str "a b"))
         /\ pos (Lexer_init (str "a b")) <= pos s' <= List.length (str "a b")
     | OutOfFuel => False
     end.
Proof.
  split; [apply reachable_init|].
  apply (call_moves_forward (str "a b")). apply reachable_init.
Defined.

(** ** Call after call *)

Lemma call_again_spec (n : nat) :
  forall pre suf : list ascii,
    List.length suf <= n ->
    match call_again n (cursor pre suf) with
    | Return t s' => tipo t = EOF /\ s' = cursor (pre ++ suf) []
    | Raise e s' => True
    | OutOfFuel => False
    end.
Proof.
  induction n as [|n IH]; intros pre suf Hn; cbn [call_again];
    pose proof (get_next_token_spec pre suf) as Sp;
    destruct (get_next_token (cursor pre suf)) as [t s'|e s'|];
    try exact I; try exact Sp;
    destruct Sp as (raw & rest & [-> ->] & skipped & text & -> & P);
    destruct P as [(_ & NE & _)|(-> & -> & ->)].
  - destruct text; [congruence|]. rewrite !length_app in Hn. simpl in Hn. lia.
  - now rewrite !app_nil_r.
  - assert (Hr : List.length rest <= n).
    { destruct text; [congruence|]. rewrite !length_app in Hn. simpl in Hn. lia. }
    specialize (IH (pre ++ skipped ++ text) rest Hr).
    destruct (call_again n (cursor (pre ++ skipped ++ text) rest));
      try exact IH.
    destruct IH as (T & ->). split; [exact T|]. now rewrite <- !app_assoc.
  - specialize (IH (pre ++ skipped ++ []) [] (Nat.le_0_l n)).
    destruct (call_again n (cursor (pre ++ skipped ++ []) []));
      try exact IH.
    destruct IH as (T & ->). split; [exact T|]. now rewrite !app_nil_r.
Qed.

(** X3.  Calls reach the end of the text: after as many calls as there
    are characters left, unless one of them raised, the next call returns
    the end-of-input token, with the whole text consumed.  So a text
    yields at most as many tokens as it has characters. *)
Theorem calls_reach_end (src : list ascii) (s : Lexer) :
  reachable src s ->
  match call_again (List.length src - pos s) s with
  | Return t s' => tipo t = EOF /\ s' = cursor src []
  | Raise e s' => True
  | OutOfFuel => False
  end.
Proof.
  intros R. destruct (reachable_cursor src s R) as (pre & suf & -> & ->).
  apply call_again_spec. simpl. rewrite length_app. lia.
Qed.

Lemma calls_reach_end_witness :
  reachable (str "a+b") (Lexer_init (str "a+b"))
  /\ match call_again (List.length (str "a+b") - pos (Lexer_init (str "a+b")))
             (Lexer_init (str "a+b")) with
     | Return t s' => tipo t = EOF /\ s' = cursor (str "a+b") []
     | Raise e s' => True
     | OutOfFuel => False
     end.
Proof.
  split; [apply reachable_init|].
  apply (calls_reach_end (str "a+b")). apply reachable_init.
Defined.

(** X4.  The line of a token lies between the line of the scanner before
    the call and its line after the call; so the lines of the tokens of a
    text never go down. *)
Theorem token_line_between (src : list ascii) (s s' : Lexer) (t : Token) :
  reachable src s ->
  get_next_token s = Return t s' ->
  line s <= linha t <= line s'.
Proof.
  intros R E. destruct (reachable_cursor src s R) as (pre & suf & -> & ->).
  pose proof (get_next_token_spec pre suf) as Sp. rewrite E in Sp.
  destruct Sp as (raw & rest & [-> ->] & skipped & text & -> & P).
  assert (L : linha t = 1 + count_newlines (pre ++ skipped)).
  { destruct P as [(L & _)|(-> & _)]; [exact L | reflexivity]. }
  rewrite L. simpl. rewrite !count_newlines_app. lia.
Qed.

Lemma token_line_between_witness :
  reachable (newline :: str "a") (Lexer_init (newline :: str "a"))
  /\ get_next_token (Lexer_init (newline :: str "a")) =
       Return (mkToken ID (str "a") 2) (cursor (newline :: str "a") [])
  /\ line (Lexer_init (newline :: str "a")) <= linha (mkToken ID (str "a") 2)
     <= line (cursor (newline :: str "a") []).
Proof.
  split; [apply reachable_init|]. split; [reflexivity|].
  apply (token_line_between (newline :: str "a")
           (Lexer_init (newline :: str "a")));
    [apply reachable_init | reflexivity].
Defined.

(** ** What is skipped *)

Lemma token_loop_enough (pre suf : list ascii) (fuel : nat) :
  List.length suf + 2 <= fuel ->
  token_loop fuel (cursor pre suf) = get_next_token (cursor pre suf).
Proof.
  intros Hf. unfold get_next_token. apply token_loop_fuel.
  - now rewrite fuel_for_cursor.
  - exact (outcome_result _ _ _ _ (get_next_token_spec pre suf)).
Qed.

Lemma token_loop_whitespace (fuel : nat) (pre suf : list ascii) (c : ascii) :
  whitespace c = true ->
  token_loop (S fuel) (cursor pre (c :: suf)) =
  match _skip_whitespace fuel (cursor pre (c :: suf)) with
  | Return _ s1 => token_loop fuel s1
  | Raise e s1 => Raise e s1
  | OutOfFuel => OutOfFuel
  end.
Proof.
  intros W. cbn [token_loop cursor current_char hd_error]. refold_cursor.
  unfold whitespace in W. now rewrite W.
Qed.

Lemma skip_whitespace_run (ws : list ascii) :
  forall (pre rest : list ascii) (fuel : nat),
    forallb whitespace ws = true ->
    ends_run whitespace rest = true ->
    List.length (ws ++ rest) < fuel ->
    _skip_whitespace fuel (cursor pre (ws ++ rest)) =
    Return tt (cursor (pre ++ ws) rest).
Proof.
  induction ws as [|c ws IH]; intros pre rest fuel W R Hf.
  - rewrite app_nil_r. simpl app. destruct fuel; [inversion Hf|].
    destruct rest as [|d rest]; [reflexivity|].
    simpl in R. apply negb_true_iff in R.
    now rewrite skip_whitespace_eq, R.
  - destruct fuel; [inversion Hf|]. simpl in Hf, W.
    apply andb_true_iff in W. destruct W as [Wc Ww].
    simpl app. rewrite skip_whitespace_eq, Wc, (IH _ _ _ Ww R) by lia.
    now rewrite <- app_assoc.
Qed.

Lemma whitespace_span (suf : list ascii) :
  exists ws rest,
    suf = ws ++ rest
    /\ forallb whitespace ws = true
    /\ ends_run whitespace rest = true.
Proof.
  induction suf as [|c suf (ws & rest & -> & W & R)].
  - now exists [], [].
  - destruct (whitespace c) eqn:Wc.
    + exists (c :: ws), rest. simpl. now rewrite Wc, W.
    + exists [], (c :: ws ++ rest). simpl. now rewrite Wc.
Qed.

Lemma whitespace_run_skipped (pre ws rest : list ascii) :
  forallb whitespace ws = true ->
  ends_run whitespace rest = true ->
  get_next_token (cursor pre (ws ++ rest)) =
  get_next_token (cursor (pre ++ ws) rest).
Proof.
  intros W R. destruct ws as [|c ws]; [now rewrite app_nil_r|].
  rewrite (get_next_token_cursor pre). simpl app.
  simpl in W. apply andb_true_iff in W. destruct W as [Wc Ww].
  rewrite (token_loop_whitespace _ _ _ _ Wc).
  change (c :: ws ++ rest) with ((c :: ws) ++ rest).
  rewrite skip_whitespace_run; [|simpl; now rewrite Wc|exact R|simpl; lia].
  apply token_loop_enough. simpl. rewrite length_app. lia.
Qed.

(** X5.  Blanks, tabs and newlines before a token change nothing but the
    line: a call made before them gives what a call made after them
    gives.  A text of nothing else, the empty text among them, gives the
    end-of-input token, at the line its end is on. *)
Theorem whitespace_is_skipped (pre ws rest : list ascii) :
  forallb whitespace ws = true ->
  get_next_token (cursor pre (ws ++ rest)) =
    get_next_token (cursor (pre ++ ws) rest)
  /\ get_next_token (cursor pre ws) =
     Return (mkToken EOF (str "EOF") (1 + count_newlines (pre ++ ws)))
            (cursor (pre ++ ws) []).
Proof.
  intros W. split.
  - destruct (whitespace_span rest) as (ws2 & rest2 & -> & W2 & R2).
    rewrite (whitespace_run_skipped (pre ++ ws) ws2 rest2 W2 R2).
    rewrite app_assoc, <- (app_assoc pre ws ws2).
    apply whitespace_run_skipped; [|exact R2].
    now rewrite forallb_app, W, W2.
  - replace (cursor pre ws) with (cursor pre (ws ++ []))
      by now rewrite app_nil_r.
    rewrite (whitespace_run_skipped pre ws [] W eq_refl).
    now rewrite get_next_token_cursor.
Qed.

Lemma whitespace_is_skipped_witness :
  forallb whitespace [" "; newline; tab] = true
  /\ get_next_token (cursor (str "a") ([" "; newline; tab] ++ str "b")) =
       get_next_token (cursor (str "a" ++ [" "; newline; tab]) (str "b"))
  /\ get_next_token (cursor (str "a") [" "; newline; tab]) =
     Return (mkToken EOF (str "EOF")
               (1 + count_newlines (str "a" ++ [" "; newline; tab])))
            (cursor (str "a" ++ [" "; newline; tab]) []).
Proof.
  split; [reflexivity|].
  apply (whitespace_is_skipped (str "a") [" "; newline; tab]). reflexivity.
Defined.

Lemma skip_to_close_brace_run (body : list ascii) :
  forall (pre suf : list ascii) (fuel : nat),
    char_in "}" body = false ->
    is_char (hd_error suf) "}" = true \/ suf = [] ->
    List.length body < fuel ->
    skip_to_close_brace fuel (cursor pre (body ++ suf)) =
    Return tt (cursor (pre ++ body) suf).
Proof.
  induction body as [|c body IH]; intros pre suf fuel N C Hf.
  - rewrite app_nil_r. simpl app. destruct fuel; [inversion Hf|].
    destruct suf as [|d suf]; [reflexivity|].
    destruct C as [C|C]; [|discriminate]. simpl in C.
    rewrite skip_to_close_brace_eq, C. reflexivity.
  - destruct fuel; [inversion Hf|]. simpl in Hf.
    unfold char_in in N. cbn [existsb] in N. fold (char_in "}" body) in N.
    apply orb_false_iff in N. destruct N as [Nc Nb].
    simpl app. rewrite skip_to_close_brace_eq.
    rewrite Ascii.eqb_sym in Nc. rewrite Nc. cbn [negb].
    rewrite (IH _ _ _ Nb C) by lia. now rewrite <- app_assoc.
Qed.

Lemma skip_to_star_paren_run (body : list ascii) :
  forall (pre rest : list ascii) (fuel : nat),
    has_star_paren (body ++ ["*"]) = false ->
    List.length body < fuel ->
    skip_to_star_paren fuel (cursor pre (body ++ "*" :: ")" :: rest)) =
    Return tt (cursor (pre ++ body) ("*" :: ")" :: rest)).
Proof.
  induction body as [|c body IH]; intros pre rest fuel N Hf.
  - rewrite app_nil_r. simpl app. destruct fuel; [inversion Hf|].
    now rewrite skip_to_star_paren_eq.
  - destruct fuel; [inversion Hf|]. simpl in Hf, N.
    apply orb_false_iff in N. destruct N as [Nc Nb].
    simpl app. rewrite skip_to_star_paren_eq.
    assert (H : hd_error (body ++ "*" :: ")" :: rest) = hd_error (body ++ ["*"]))
      by now destruct body.
    rewrite H, Nc, (IH _ _ _ Nb) by lia. now rewrite <- app_assoc.
Qed.

Lemma skip_to_star_paren_end (suf : list ascii) :
  forall (pre : list ascii) (fuel : nat),
    has_star_paren suf = false ->
    List.length suf < fuel ->
    skip_to_star_paren fuel (cursor pre suf) = Return tt (cursor (pre ++ suf) []).
Proof.
  induction suf as [|c suf IH]; intros pre fuel N Hf.
  - rewrite app_nil_r. destruct fuel; [inversion Hf | reflexivity].
  - destruct fuel; [inversion Hf|]. simpl in Hf, N.
    apply orb_false_iff in N. destruct N as [Nc Nb].
    rewrite skip_to_star_paren_eq, Nc, (IH _ _ Nb) by lia.
    now rewrite <- app_assoc.
Qed.

Lemma token_loop_comment (fuel : nat) (pre suf : list ascii) (c : ascii) :
  Ascii.eqb c "{" || (Ascii.eqb c "(" && is_char (hd_error suf) "*") = true ->
  token_loop (S fuel) (cursor pre (c :: suf)) =
  match _skip_comment fuel (cursor pre (c :: suf)) with
  | Return true s1 => token_loop fuel s1
  | Return false s1 => recognise fuel s1
  | Raise e s1 => Raise e s1
  | OutOfFuel => OutOfFuel
  end.
Proof.
  intros C. cbn [token_loop cursor current_char hd_error]. refold_cursor.
  assert (F : char_in c [" "; tab; newline] = false
              /\ char_in c ["{"; "("] = true).
  { apply orb_true_iff in C. destruct C as [C|C].
    - apply Ascii.eqb_eq in C. now subst c.
    - apply andb_true_iff in C. destruct C as [C _].
      apply Ascii.eqb_eq in C. now subst c. }
  destruct F as (-> & ->). reflexivity.
Qed.

(** X6.  A comment in braces runs to the first closing brace, whatever
    else it holds, an opening brace or a newline; a call made before it
    gives what a call made after it gives.  With no closing brace in the
    rest of the text the call raises the error of the unfinished comment,
    with the line of the end of the text, and leaves the scanner there. *)
Theorem brace_comment_is_skipped (pre body rest : list ascii) :
  char_in "}" body = false ->
  get_next_token (cursor pre ("{" :: body ++ "}" :: rest)) =
    get_next_token (cursor (pre ++ "{" :: body ++ ["}"]) rest)
  /\ get_next_token (cursor pre ("{" :: body)) =
     Raise (ErroLexico (1 + count_newlines (pre ++ "{" :: body))
                       ComentarioChaveNaoFinalizado)
           (cursor (pre ++ "{" :: body) []).
Proof.
  intros N. split.
  - rewrite (get_next_token_cursor pre), token_loop_comment by reflexivity.
    unfold _skip_comment. cbn [cursor current_char hd_error is_char].
    refold_cursor. change (Ascii.eqb "{" "{") with true. cbv iota.
    rewrite advance_cursor.
    rewrite (skip_to_close_brace_run body (pre ++ ["{"]) ("}" :: rest));
      [|exact N|now left|simpl; rewrite length_app; simpl; lia].
    cbn [cursor current_char hd_error]. refold_cursor.
    rewrite advance_cursor.
    replace (((pre ++ ["{"]) ++ body) ++ ["}"])
      with (pre ++ "{" :: body ++ ["}"])
      by now rewrite <- !app_assoc.
    apply token_loop_enough. simpl. rewrite length_app. simpl. lia.
  - rewrite (get_next_token_cursor pre), token_loop_comment by reflexivity.
    unfold _skip_comment. cbn [cursor current_char hd_error is_char].
    refold_cursor. change (Ascii.eqb "{" "{") with true. cbv iota.
    rewrite advance_cursor.
    replace (cursor (pre ++ ["{"]) body)
      with (cursor (pre ++ ["{"]) (body ++ [])) by now rewrite app_nil_r.
    rewrite (skip_to_close_brace_run body (pre ++ ["{"]) []);
      [|exact N|now right|simpl; lia].
    rewrite <- app_assoc. reflexivity.
Qed.

Lemma brace_comment_is_skipped_witness :
  char_in "}" (str " a { b ") = false
  /\ get_next_token (cursor (str "x") ("{" :: str " a { b " ++ "}" :: str " y")) =
       get_next_token (cursor (str "x" ++ "{" :: str " a { b " ++ ["}"]) (str " y"))
  /\ get_next_token (cursor (str "x") ("{" :: str " a { b ")) =
     Raise (ErroLexico (1 + count_newlines (str "x" ++ "{" :: str " a { b "))
                       ComentarioChaveNaoFinalizado)
           (cursor (str "x" ++ "{" :: str " a { b ") []).
Proof.
  split; [reflexivity|].
  apply (brace_comment_is_skipped (str "x") (str " a { b ")). reflexivity.
Defined.

(** X7.  A comment opened by a parenthesis and a star runs to the first
    star that a closing parenthesis follows, after the two opening
    characters: the star that opens does not close.  A call made before
    the comment gives what a call made after it gives.  With no such pair
    in the rest of the text, as in a text ending in the three characters
    parenthesis, star, parenthesis, the call raises the error of the
    unfinished comment with the line of the end of the text. *)
Theorem paren_comment_is_skipped (pre body rest : list ascii) :
  (has_star_paren (body ++ ["*"]) = false ->
   get_next_token (cursor pre ("(" :: "*" :: body ++ "*" :: ")" :: rest)) =
   get_next_token (cursor (pre ++ "(" :: "*" :: body ++ ["*"; ")"]) rest))
  /\ (has_star_paren body = false ->
      get_next_token (cursor pre ("(" :: "*" :: body)) =
      Raise (ErroLexico (1 + count_newlines (pre ++ "(" :: "*" :: body))
                        ComentarioParNaoFinalizado)
            (cursor (pre ++ "(" :: "*" :: body) [])).
Proof.
  split; intros N.
  - rewrite (get_next_token_cursor pre), token_loop_comment by reflexivity.
    unfold _skip_comment. rewrite peek_cursor.
    cbn [cursor current_char hd_error is_char]. refold_cursor.
    change (Ascii.eqb "(" "{") with false.
    change (Ascii.eqb "(" "(" && Ascii.eqb "*" "*") with true. cbv iota.
    rewrite !advance_cursor.
    rewrite (skip_to_star_paren_run body ((pre ++ ["("]) ++ ["*"]) rest);
      [|exact N|simpl; rewrite length_app; simpl; lia].
    cbn [cursor current_char hd_error]. refold_cursor.
    rewrite !advance_cursor.
    replace (((((pre ++ ["("]) ++ ["*"]) ++ body) ++ ["*"]) ++ [")"])
      with (pre ++ "(" :: "*" :: body ++ ["*"; ")"])
      by now rewrite <- !app_assoc.
    apply token_loop_enough. simpl. rewrite length_app. simpl. lia.
  - rewrite (get_next_token_cursor pre), token_loop_comment by reflexivity.
    unfold _skip_comment. rewrite peek_cursor.
    cbn [cursor current_char hd_error is_char]. refold_cursor.
    change (Ascii.eqb "(" "{") with false.
    change (Ascii.eqb "(" "(" && Ascii.eqb "*" "*") with true. cbv iota.
    rewrite !advance_cursor.
    rewrite (skip_to_star_paren_end body ((pre ++ ["("]) ++ ["*"]));
      [|exact N|simpl; lia].
    rewrite <- !app_assoc. reflexivity.
Qed.

Lemma paren_comment_is_skipped_witness :
  has_star_paren (str " a (* b *" ++ ["*"]) = false
  /\ get_next_token
       (cursor (str "x") ("(" :: "*" :: str " a (* b *" ++ "*" :: ")" :: str "y")) =
     get_next_token
       (cursor (str "x" ++ "(" :: "*" :: str " a (* b *" ++ ["*"; ")"]) (str "y"))
  /\ has_star_paren (str ")") = false
  /\ get_next_token (cursor (str "x") ("(" :: "*" :: str ")")) =
     Raise (ErroLexico (1 + count_newlines (str "x" ++ "(" :: "*" :: str ")"))
                       ComentarioParNaoFinalizado)
           (cursor (str "x" ++ "(" :: "*" :: str ")") []).
Proof.
  split; [reflexivity|].
  split;
    [apply (proj1 (paren_comment_is_skipped (str "x") (str " a (* b *") (str "y")));
     reflexivity|].
  split; [reflexivity|].
  apply (proj2 (paren_comment_is_skipped (str "x") (str ")") [])). reflexivity.
Defined.

(** ** What a call can raise, from any state *)

Lemma skip_whitespace_no_raise (fuel : nat) :
  forall (s s' : Lexer) (e : PyException),
    _skip_whitespace fuel s <> Raise e s'.
Proof.
  induction fuel as [|fuel IH]; intros s s' e; [discriminate|].
  cbn [_skip_whitespace]. destruct (current_char s) as [c|]; [|discriminate].
  destruct (char_in c [" "; tab; newline]); [apply IH | discriminate].
Qed.

Lemma skip_to_close_brace_no_raise (fuel : nat) :
  forall (s s' : Lexer) (e : PyException),
    skip_to_close_brace fuel s <> Raise e s'.
Proof.
  induction fuel as [|fuel IH]; intros s s' e; [discriminate|].
  cbn [skip_to_close_brace].
  destruct (current_char s) as [c|]; [|discriminate].
  destruct (negb (Ascii.eqb c "}")); [apply IH | discriminate].
Qed.

Lemma skip_to_star_paren_no_raise (fuel : nat) :
  forall (s s' : Lexer) (e : PyException),
    skip_to_star_paren fuel s <> Raise e s'.
Proof.
  induction fuel as [|fuel IH]; intros s s' e; [discriminate|].
  cbn [skip_to_star_paren].
  destruct (current_char s) as [c|]; [|discriminate].
  destruct (Ascii.eqb c "*" && is_char (_peek s) ")");
    [discriminate | apply IH].
Qed.

Lemma id_loop_no_raise (fuel : nat) :
  forall (lexeme : list ascii) (s s' : Lexer) (e : PyException),
    id_loop fuel lexeme s <> Raise e s'.
Proof.
  induction fuel as [|fuel IH]; intros lexeme s s' e; [discriminate|].
  cbn [id_loop]. destruct (current_char s) as [c|]; [|discriminate].
  destruct (isalnum c); [apply IH | discriminate].
Qed.

Lemma skip_comment_raise (fuel : nat) (s s' : Lexer) (e : PyException) :
  _skip_comment fuel s = Raise e s' -> raise_site e s'.
Proof.
  unfold _skip_comment, _error.
  destruct (is_char (current_char s) "{").
  - destruct (skip_to_close_brace fuel (_advance s)) as [u s1|e1 s1|] eqn:L;
      [| |discriminate].
    + destruct (current_char s1) eqn:C; [discriminate|].
      intros [= <- <-]. now split.
    + now apply skip_to_close_brace_no_raise in L.
  - destruct (is_char (current_char s) "(" && is_char (_peek s) "*");
      [|discriminate].
    destruct (skip_to_star_paren fuel (_advance (_advance s)))
      as [u s1|e1 s1|] eqn:L; [| |discriminate].
    + destruct (current_char s1) eqn:C; [discriminate|].
      intros [= <- <-]. now split.
    + now apply skip_to_star_paren_no_raise in L.
Qed.

Lemma skip_comment_false (fuel : nat) (s s' : Lexer) :
  _skip_comment fuel s = Return false s' ->
  s' = s /\ is_char (current_char s) "{" = false.
Proof.
  unfold _skip_comment, _error.
  destruct (is_char (current_char s) "{").
  - destruct (skip_to_close_brace fuel (_advance s)) as [u s1|e1 s1|];
      try discriminate.
    destruct (current_char s1); discriminate.
  - destruct (is_char (current_char s) "(" && is_char (_peek s) "*").
    + destruct (skip_to_star_paren fuel (_advance (_advance s)))
        as [u s1|e1 s1|]; try discriminate.
      destruct (current_char s1); discriminate.
    + intros [= <-]. now split.
Qed.

Lemma number_loop_raise (fuel : nat) :
  forall (state : nat) (lexeme : list ascii) (s s' : Lexer) (e : PyException),
    number_loop fuel state lexeme s = Raise e s' -> raise_site e s'.
Proof.
  induction fuel as [|fuel IH]; intros state lexeme s s' e; [discriminate|].
  cbn [number_loop]. unfold _error.
  do 6 (destruct state as [|state];
        [ repeat match goal with
                 | |- context [if ?b then _ else _] => destruct b eqn:?
                 | |- context [match current_char s with _ => _ end] =>
                     destruct (current_char s) eqn:?
                 end;
          try apply IH; try discriminate;
          intros [= <- <-]; cbn [raise_site]; repeat split; congruence
        | ]).
  apply IH.
Qed.

Lemma string_loop_raise (fuel : nat) :
  forall (content : list ascii) (s s' : Lexer) (e : PyException),
    string_loop fuel content s = Raise e s' -> raise_site e s'.
Proof.
  induction fuel as [|fuel IH]; intros content s s' e; [discriminate|].
  cbn [string_loop]. unfold _error.
  destruct (current_char s) as [c|] eqn:C.
  - destruct (Ascii.eqb c quote).
    + destruct (is_char (_peek s) quote); [apply IH | discriminate].
    + apply IH.
  - intros [= <- <-]. now split.
Qed.

Lemma recognise_raise (fuel : nat) (s s' : Lexer) (e : PyException) (c : ascii) :
  current_char s = Some c ->
  whitespace c = false ->
  Ascii.eqb c "{" = false ->
  recognise fuel s = Raise e s' -> raise_site e s'.
Proof.
  intros C W B.
  unfold recognise, _id_or_keyword, _number, _string_literal, two_char, _error.
  rewrite C.
  destruct (isalpha c) eqn:A.
  { destruct (id_loop fuel [] s) as [lexeme s1|e1 s1|] eqn:L;
      [| |discriminate].
    - destruct (dict_get RESERVED_KEYWORDS (upper lexeme)); discriminate.
    - now apply id_loop_no_raise in L. }
  destruct (isdigit c) eqn:D.
  { destruct (number_loop fuel 0 [] s) as [lexeme s1|e1 s1|] eqn:L;
      try discriminate.
    intros [= <- <-]. exact (number_loop_raise _ _ _ _ _ _ L). }
  destruct (Ascii.eqb c quote) eqn:Q.
  { destruct (string_loop fuel [] (_advance s)) as [content s1|e1 s1|] eqn:L;
      try discriminate.
    - destruct (List.length content =? 1); discriminate.
    - intros [= <- <-]. exact (string_loop_raise _ _ _ _ _ L). }
  repeat match goal with
         | |- context [if ?b then _ else _] => destruct b; [discriminate|]
         end.
  destruct (single_char_tokens c) as [k|] eqn:S; [discriminate|].
  intros [= <- <-]. simpl. split; [reflexivity|]. split; [exact C|].
  assert (P : char_in c ["{"; "("] = false).
  { unfold char_in. cbn [existsb]. rewrite B.
    destruct (Ascii.eqb_spec c "(") as [->|]; [discriminate S | reflexivity]. }
  unfold no_rule. now rewrite W, P, A, D, Q, S.
Qed.

Lemma token_loop_raise (fuel : nat) :
  forall (s s' : Lexer) (e : PyException),
    token_loop fuel s = Raise e s' -> raise_site e s'.
Proof.
  induction fuel as [|fuel IH]; intros s s' e; [discriminate|].
  cbn [token_loop].
  destruct (current_char s) as [c|] eqn:C; [|discriminate].
  fold (whitespace c). destruct (whitespace c) eqn:W.
  - destruct (_skip_whitespace fuel s) as [u s1|e1 s1|] eqn:L;
      [apply IH| |discriminate].
    now apply skip_whitespace_no_raise in L.
  - destruct (char_in c ["{"; "("]) eqn:P.
    + destruct (_skip_comment fuel s) as [[] s1|e1 s1|] eqn:L;
        [apply IH| | |discriminate].
      * destruct (skip_comment_false _ _ _ L) as (-> & B).
        rewrite C in B. now apply (recognise_raise fuel s s' e c).
      * intros [= <- <-]. exact (skip_comment_raise _ _ _ _ L).
    + apply (recognise_raise fuel s s' e c C W).
      unfold char_in in P. cbn [existsb] in P.
      now apply orb_false_iff in P.
Qed.

(** From a character no rule takes, a call raises and stays. *)
Lemma no_rule_raises (s : Lexer) (c : ascii) :
  current_char s = Some c ->
  no_rule c = true ->
  get_next_token s = Raise (ErroLexico (line s) (CaractereInesperado c)) s.
Proof.
  intros C N.
  assert (F : char_in c [" "; tab; newline] = false
              /\ char_in c ["{"; "("] = false
              /\ Ascii.eqb c ":" = false
              /\ Ascii.eqb c "<" = false /\ Ascii.eqb c ">" = false
              /\ isalpha c = false /\ isdigit c = false
              /\ Ascii.eqb c quote = false /\ single_char_tokens c = None).
  { revert N. clear. each_char c; vm_compute; intros E;
      try discriminate E; now repeat split. }
  destruct F as (W & P & B1 & B2 & B3 & A & D & Q & S).
  unfold get_next_token, fuel_for. rewrite Nat.add_comm.
  cbn [Nat.add token_loop]. rewrite C, W, P.
  unfold recognise. now rewrite C, A, D, Q, B1, B2, B3, S.
Qed.

(** ** After an exception *)

(** X8.  Whatever a call raises from a reachable state, it never is an
    [AttributeError]; an error of the scanner carries the line the
    scanner is on when it raises, which is one more than the newlines
    consumed so far.  The errors of an unfinished comment or literal, and
    the [TypeError], are raised at the end of the text, and so the line
    such an error carries is that of the end of the text, not that of the
    opening.  The error of a malformed number is raised with the scanner
    before a character that is no digit, or at the end of the text; the
    error of an unexpected character with the scanner before that
    character, which no rule takes. *)
Theorem raise_carries_current_line (src : list ascii) (s s' : Lexer)
  (e : PyException) :
  reachable src s ->
  get_next_token s = Raise e s' ->
  raise_site e s'
  /\ line s' = 1 + count_newlines (firstn (pos s') src).
Proof.
  intros R E. split; [exact (token_loop_raise _ _ _ _ E)|].
  destruct (reachable_cursor src s' (reachable_raise src s s' e R E))
    as (pre & suf & -> & ->).
  simpl. now rewrite firstn_app, Nat.sub_diag, firstn_all, firstn_O, app_nil_r.
Qed.

Lemma raise_carries_current_line_witness :
  reachable (newline :: str "(* a") (Lexer_init (newline :: str "(* a"))
  /\ get_next_token (Lexer_init (newline :: str "(* a")) =
       Raise (ErroLexico 2 ComentarioParNaoFinalizado)
             (cursor (newline :: str "(* a") [])
  /\ raise_site (ErroLexico 2 ComentarioParNaoFinalizado)
                (cursor (newline :: str "(* a") [])
  /\ line (cursor (newline :: str "(* a") []) =
     1 + count_newlines
           (firstn (pos (cursor (newline :: str "(* a") []))
                   (newline :: str "(* a")).
Proof.
  split; [apply reachable_init|]. split; [reflexivity|].
  apply (raise_carries_current_line (newline :: str "(* a")
           (Lexer_init (newline :: str "(* a")));
    [apply reachable_init | reflexivity].
Defined.

(** X9.  The error of an unexpected character leaves the scanner before
    that character: every later call raises the same error again, and no
    token after it is ever returned. *)
Theorem unexpected_character_persists (s s' : Lexer) (l : nat) (c : ascii) :
  get_next_token s = Raise (ErroLexico l (CaractereInesperado c)) s' ->
  forall n : nat,
    call_again n s' = Raise (ErroLexico l (CaractereInesperado c)) s'.
Proof.
  intros E. destruct (token_loop_raise _ _ _ _ E) as (-> & C & N).
  pose proof (no_rule_raises s' c C N) as F.
  induction n as [|n IH]; simpl; now rewrite F.
Qed.

Lemma unexpected_character_persists_witness :
  get_next_token (Lexer_init (str " # a")) =
    Raise (ErroLexico 1 (CaractereInesperado "#")) (cursor (str " ") (str "# a"))
  /\ call_again 5 (cursor (str " ") (str "# a")) =
     Raise (ErroLexico 1 (CaractereInesperado "#")) (cursor (str " ") (str "# a")).
Proof.
  split; [reflexivity|].
  apply (unexpected_character_persists (Lexer_init (str " # a"))). reflexivity.
Defined.

(** X10.  After the error of an unfinished comment or of an unfinished
    literal, and after the [TypeError], the scanner is at the end of the
    text: every later call returns the end-of-input token, with the line
    the error carried. *)
Theorem end_of_input_after_unfinished (s s' : Lexer) (e : PyException) :
  get_next_token s = Raise e s' ->
  match e with
  | ErroLexico l m =>
      error_kind m = UnterminatedComment \/ error_kind m = UnterminatedLiteral
  | TypeError => True
  | AttributeError => False
  end ->
  forall n : nat,
    call_again n s' = Return (mkToken EOF (str "EOF") (line s')) s'
    /\ match e with
       | ErroLexico l _ => l = line s'
       | _ => True
       end.
Proof.
  intros E K. pose proof (token_loop_raise _ _ _ _ E) as S.
  assert (C : current_char s' = None
              /\ match e with ErroLexico l _ => l = line s' | _ => True end).
  { destruct e as [l m| |]; [|now split|destruct K].
    destruct S as (L & S). split; [|exact L].
    destruct m; try exact S; destruct K; discriminate. }
  destruct C as (C & L).
  pose proof (get_next_token_at_end s' C) as F.
  induction n as [|n IH]; simpl; rewrite F; [now split | exact IH].
Qed.

Lemma end_of_input_after_unfinished_witness :
  get_next_token (cursor (str "a") (newline :: str "'b")) =
    Raise (ErroLexico 2 StringNaoFinalizada)
          (cursor (str "a" ++ newline :: str "'b") [])
  /\ (error_kind StringNaoFinalizada = UnterminatedComment
      \/ error_kind StringNaoFinalizada = UnterminatedLiteral)
  /\ call_again 3 (cursor (str "a" ++ newline :: str "'b") []) =
     Return (mkToken EOF (str "EOF")
               (line (cursor (str "a" ++ newline :: str "'b") [])))
            (cursor (str "a" ++ newline :: str "'b") [])
  /\ 2 = line (cursor (str "a" ++ newline :: str "'b") []).
Proof.
  split; [reflexivity|]. split; [now right|].
  apply (end_of_input_after_unfinished
           (cursor (str "a") (newline :: str "'b"))
           (cursor (str "a" ++ newline :: str "'b") [])
           (ErroLexico 2 StringNaoFinalizada));
    [reflexivity | now right].
Defined.

(** ** Numbers *)

(** One iteration of the state machine at a cursor. *)
Ltac number_step :=
  cbn [number_loop cursor current_char hd_error and_isdigit and_lower_is_e
       is_char take];
  refold_cursor; rewrite ?advance_cursor, ?peek_cursor.

Lemma digit_facts (c : ascii) :
  isdigit c = true ->
  Ascii.eqb c "." = false /\ Ascii.eqb (lower c) "e" = false
  /\ char_in c ["+"; "-"] = false.
Proof. each_char c; vm_compute; intros E; try discriminate E; now repeat split. Qed.

Lemma marker_facts (c : ascii) :
  Ascii.eqb (lower c) "e" = true ->
  isdigit c = false /\ Ascii.eqb c "." = false.
Proof. each_char c; vm_compute; intros E; try discriminate E; now repeat split. Qed.

Lemma sign_facts (c : ascii) :
  char_in c ["+"; "-"] = true -> isdigit c = false.
Proof. each_char c; vm_compute; intros E; try discriminate E; reflexivity. Qed.

Lemma digits_state (state : nat) (w : list ascii) :
  state = 0 \/ state = 2 \/ state = 5 ->
  forall (pre lexeme suf : list ascii) (fuel : nat),
    forallb isdigit w = true ->
    number_loop (List.length w + fuel) state lexeme (cursor pre (w ++ suf)) =
    number_loop fuel state (lexeme ++ w) (cursor (pre ++ w) suf).
Proof.
  intros Hs. induction w as [|c w IH]; intros pre lexeme suf fuel A.
  - now rewrite !app_nil_r.
  - simpl in A. apply andb_true_iff in A. destruct A as [Ac Aw].
    simpl app. simpl List.length. simpl Nat.add.
    destruct Hs as [-> | [-> | ->]]; number_step; rewrite Ac;
      (rewrite IH by exact Aw); now rewrite <- !app_assoc.
Qed.

Lemma number_end_0 (fuel : nat) (pre lexeme rest : list ascii) :
  number_ends [] [] rest = true ->
  number_loop (S fuel) 0 lexeme (cursor pre rest) = Return lexeme (cursor pre rest).
Proof.
  intros E. destruct rest as [|c rest]; [reflexivity|].
  number_step. unfold number_ends in E.
  destruct rest as [|d rest].
  - simpl in E. apply negb_true_iff in E.
    apply orb_false_iff in E. destruct E as [E E3].
    apply orb_false_iff in E. destruct E as [E1 E2].
    now rewrite E1, E2, E3.
  - destruct (Ascii.eqb c ".") eqn:P.
    + apply Ascii.eqb_eq in P. subst c. cbn [hd_error is_char].
      rewrite E. reflexivity.
    + apply negb_true_iff in E.
      apply orb_false_iff in E. destruct E as [E1 E3].
      now rewrite E1, E3.
Qed.

Lemma number_end_2 (fuel : nat) (pre lexeme rest : list ascii) :
  ends_run (fun c => isdigit c || Ascii.eqb (lower c) "e") rest = true ->
  number_loop (S fuel) 2 lexeme (cursor pre rest) = Return lexeme (cursor pre rest).
Proof.
  intros E. destruct rest as [|c rest]; [reflexivity|].
  number_step. simpl in E. apply negb_true_iff in E.
  apply orb_false_iff in E. destruct E as [E1 E3]. now rewrite E1, E3.
Qed.

Lemma number_end_5 (fuel : nat) (pre lexeme rest : list ascii) :
  ends_run isdigit rest = true ->
  number_loop (S fuel) 5 lexeme (cursor pre rest) = Return lexeme (cursor pre rest).
Proof.
  intros E. destruct rest as [|c rest]; [reflexivity|].
  number_step. simpl in E. apply negb_true_iff in E. now rewrite E.
Qed.

Lemma marker_step (state fuel : nat) (pre lexeme suf : list ascii) (e : ascii) :
  state = 0 \/ state = 2 ->
  Ascii.eqb (lower e) "e" = true ->
  number_loop (S fuel) state lexeme (cursor pre (e :: suf)) =
  number_loop fuel 3 (lexeme ++ [e]) (cursor (pre ++ [e]) suf).
Proof.
  intros Hs M. destruct (marker_facts e M) as (D & P).
  destruct Hs as [-> | ->]; number_step; now rewrite D, ?P, M.
Qed.

Lemma nonempty_digits_cons (l : list ascii) :
  nonempty_digits l = true ->
  exists d l', l = d :: l' /\ isdigit d = true /\ forallb isdigit l' = true.
Proof.
  destruct l as [|d l']; [discriminate|]. simpl.
  intros A. apply andb_true_iff in A. destruct A. eauto.
Qed.

Lemma exponent_run (state : nat) (pre lexeme ex rest : list ascii) :
  state = 0 \/ state = 2 ->
  ex <> [] ->
  is_exponent ex = true ->
  ends_run isdigit rest = true ->
  number_loop (List.length ex + 1) state lexeme (cursor pre (ex ++ rest)) =
  Return (lexeme ++ ex) (cursor (pre ++ ex) rest).
Proof.
  intros Hs NE X R. destruct ex as [|e x]; [congruence|].
  cbn [is_exponent] in X. apply andb_true_iff in X. destruct X as [M X].
  simpl app. simpl List.length. simpl Nat.add.
  rewrite (marker_step state _ _ _ _ e Hs M).
  destruct x as [|sg x]; [discriminate|].
  destruct (char_in sg ["+"; "-"]) eqn:G; try rewrite G in X.
  - destruct (nonempty_digits_cons x X) as (d & x' & -> & D & A).
    simpl app. simpl List.length. simpl Nat.add.
    number_step. rewrite G. number_step. rewrite D.
    rewrite (digits_state 5 x') by auto.
    rewrite number_end_5 by exact R. now rewrite <- !app_assoc.
  - destruct (nonempty_digits_cons _ X) as (d & x' & [= <- <-] & D & A).
    simpl app. simpl List.length. simpl Nat.add.
    number_step. rewrite G, D.
    rewrite (digits_state 5 x) by auto.
    rewrite number_end_5 by exact R. now rewrite <- !app_assoc.
Qed.

Lemma fraction_run (fuel : nat) (pre lexeme fs suf : list ascii) :
  nonempty_digits fs = true ->
  number_loop (List.length ("." :: fs) + fuel) 0 lexeme
    (cursor pre (("." :: fs) ++ suf)) =
  number_loop fuel 2 (lexeme ++ "." :: fs) (cursor (pre ++ "." :: fs) suf).
Proof.
  intros F. destruct (nonempty_digits_cons fs F) as (d & fs' & -> & D & A).
  destruct (digit_facts d D) as (P & _).
  simpl app. simpl List.length. simpl Nat.add.
  number_step. cbn [hd_error is_char]. rewrite P.
  number_step. rewrite D.
  rewrite (digits_state 2 fs') by auto. now rewrite <- !app_assoc.
Qed.

Lemma number_run (pre lexeme ds fr ex rest : list ascii) :
  forallb isdigit ds = true ->
  is_fraction fr = true ->
  is_exponent ex = true ->
  number_ends fr ex rest = true ->
  number_loop (List.length (ds ++ fr ++ ex) + 1) 0 lexeme
    (cursor pre (ds ++ fr ++ ex ++ rest)) =
  Return (lexeme ++ ds ++ fr ++ ex) (cursor (pre ++ ds ++ fr ++ ex) rest).
Proof.
  intros D F X E.
  rewrite !length_app, <- !Nat.add_assoc.
  rewrite (digits_state 0 ds) by auto.
  destruct fr as [|p fs].
  - simpl app. simpl List.length. simpl Nat.add.
    destruct ex as [|e x].
    + simpl app. rewrite !app_nil_r. now apply number_end_0.
    + rewrite exponent_run; auto; [|discriminate].
      now rewrite <- !app_assoc.
  - simpl in F. apply andb_true_iff in F. destruct F as [P F].
    apply Ascii.eqb_eq in P. subst p.
    rewrite (fraction_run _ _ _ fs) by exact F.
    destruct ex as [|e x].
    + simpl app. rewrite !app_nil_r. simpl Nat.add.
      rewrite number_end_2 by exact E. now rewrite <- !app_assoc.
    + rewrite exponent_run; auto; [|discriminate].
      now rewrite <- !app_assoc.
Qed.

Lemma token_loop_digit (fuel : nat) (pre suf : list ascii) (c : ascii) :
  isdigit c = true ->
  token_loop (S fuel) (cursor pre (c :: suf)) =
  _number fuel (cursor pre (c :: suf)).
Proof.
  intros D. destruct (isdigit_not_other c D) as (W & P & A).
  unfold char_in in P. cbn [existsb] in P.
  apply orb_false_iff in P. destruct P as [P1 P2].
  apply orb_false_iff in P2. destruct P2 as [P2 _].
  rewrite token_loop_recognise; [|exact W|exact P1|now rewrite P2].
  unfold recognise. cbn [cursor current_char hd_error]. refold_cursor.
  now rewrite A, D.
Qed.

(** X11.  Digits, then nothing or a point and digits, then nothing or an
    exponent (the letter e in either case, a sign or none, digits),
    followed by a text that does not continue them, are one number token
    whose lexeme is the text as written.  Two points after the digits end
    the number; so does any character other than a digit, a point or the
    letter e. *)
Theorem number_as_written (pre ds fr ex rest : list ascii) :
  nonempty_digits ds = true ->
  is_fraction fr = true ->
  is_exponent ex = true ->
  number_ends fr ex rest = true ->
  get_next_token (cursor pre (ds ++ fr ++ ex ++ rest)) =
  Return (mkToken NUM (ds ++ fr ++ ex) (1 + count_newlines pre))
         (cursor (pre ++ ds ++ fr ++ ex) rest).
Proof.
  intros D F X E.
  destruct (nonempty_digits_cons ds D) as (d & ds' & -> & Dd & A).
  assert (Dall : forallb isdigit (d :: ds') = true) by (simpl; now rewrite Dd).
  pose proof (number_run pre [] (d :: ds') fr ex rest Dall F X E) as R.
  rewrite get_next_token_cursor. simpl app in *.
  rewrite (token_loop_digit _ _ _ _ Dd). unfold _number.
  rewrite (number_loop_fuel (List.length (d :: ds' ++ fr ++ ex) + 1)).
  - now rewrite R.
  - simpl. rewrite !length_app. lia.
  - now rewrite R.
Qed.

Lemma number_as_written_witness :
  nonempty_digits (str "12") = true
  /\ is_fraction (str ".50") = true
  /\ is_exponent (str "E-3") = true
  /\ number_ends (str ".50") (str "E-3") (str ".x") = true
  /\ get_next_token
       (cursor (str "a:=") (str "12" ++ str ".50" ++ str "E-3" ++ str ".x")) =
     Return (mkToken NUM (str "12" ++ str ".50" ++ str "E-3")
                     (1 + count_newlines (str "a:=")))
            (cursor (str "a:=" ++ str "12" ++ str ".50" ++ str "E-3") (str ".x")).
Proof.
  repeat (split; [reflexivity|]).
  apply (number_as_written (str "a:=") (str "12") (str ".50") (str "E-3"));
    reflexivity.
Defined.

(** *** The lexeme of a number token *)

Lemma nonempty_digits_snoc (l : list ascii) (c : ascii) :
  forallb isdigit l = true -> isdigit c = true ->
  nonempty_digits (l ++ [c]) = true.
Proof.
  intros A D. destruct l as [|d l]; simpl in *; [now rewrite D|].
  apply andb_true_iff in A. destruct A as [Ad Al].
  now rewrite Ad, forallb_app, Al; simpl; rewrite D.
Qed.

Lemma nonempty_digits_all (l : list ascii) :
  nonempty_digits l = true -> forallb isdigit l = true.
Proof. now destruct l. Qed.

Lemma is_exponent_snoc (ex : list ascii) (c : ascii) :
  ex <> [] -> is_exponent ex = true -> isdigit c = true ->
  is_exponent (ex ++ [c]) = true.
Proof.
  intros NE X D. destruct ex as [|e x]; [congruence|].
  cbn [is_exponent app] in *. apply andb_true_iff in X. destruct X as [M X].
  rewrite M. cbn [andb].
  destruct x as [|sg x]; [discriminate|]. cbn [app].
  destruct (char_in sg ["+"; "-"]).
  - apply nonempty_digits_snoc; [now apply nonempty_digits_all | exact D].
  - change (sg :: x ++ [c]) with ((sg :: x) ++ [c]).
    apply nonempty_digits_snoc; [now apply nonempty_digits_all | exact D].
Qed.

Lemma reads_step (state state' : nat) (lexeme : list ascii) (c : ascii) :
  reads state lexeme ->
  match state, state' with
  | 0, 0 | 1, 2 | 2, 2 | 4, 5 | 5, 5 => isdigit c = true
  | 0, 1 => Ascii.eqb c "." = true
  | 0, 3 | 2, 3 => Ascii.eqb (lower c) "e" = true
  | 3, 4 => char_in c ["+"; "-"] = true
  | 3, 5 => isdigit c = true
  | _, _ => False
  end ->
  reads state' (lexeme ++ [c]).
Proof.
  intros R H.
  destruct state as [|[|[|[|[|[|state]]]]]];
    destruct state' as [|[|[|[|[|[|state']]]]]];
    try solve [destruct H]; try solve [destruct R].
  - (* 0, 0 *) simpl in *.
    apply nonempty_digits_snoc; [now apply nonempty_digits_all | exact H].
  - (* 0, 1 *) apply Ascii.eqb_eq in H. subst c. now exists lexeme.
  - (* 0, 3 *) exists lexeme, [], c. now repeat split.
  - (* 1, 2 *) destruct R as (ds & -> & D). exists ds, [c].
    rewrite <- app_assoc. repeat split; auto. simpl. now rewrite H.
  - (* 2, 2 *) destruct R as (ds & fs & -> & D & F). exists ds, (fs ++ [c]).
    rewrite <- app_assoc. repeat split; auto.
    apply nonempty_digits_snoc; [now apply nonempty_digits_all | exact H].
  - (* 2, 3 *) destruct R as (ds & fs & -> & D & F).
    exists ds, ("." :: fs), c. rewrite <- !app_assoc.
    repeat split; auto.
  - (* 3, 4 *) destruct R as (ds & fr & e & -> & D & F & M).
    exists ds, fr, e, c. rewrite <- !app_assoc. now repeat split.
  - (* 3, 5 *) destruct R as (ds & fr & e & -> & D & F & M).
    exists ds, fr, [e; c]. rewrite <- !app_assoc.
    destruct (digit_facts c H) as (_ & _ & G).
    repeat split; auto; [|discriminate].
    cbn [is_exponent]. rewrite M, G. simpl. now rewrite H.
  - (* 4, 5 *) destruct R as (ds & fr & e & sg & -> & D & F & M & G).
    exists ds, fr, [e; sg; c]. rewrite <- !app_assoc.
    repeat split; auto; [|discriminate].
    cbn [is_exponent]. rewrite M, G. simpl. now rewrite H.
  - (* 5, 5 *) destruct R as (ds & fr & ex & -> & D & F & X & NE).
    exists ds, fr, (ex ++ [c]). rewrite <- !app_assoc.
    repeat split; auto; [now apply is_exponent_snoc|].
    now destruct ex.
Qed.

Lemma reads_number_text (state : nat) (lexeme : list ascii) :
  state = 0 \/ state = 2 \/ state = 5 ->
  reads state lexeme -> number_text lexeme.
Proof.
  intros [-> | [-> | ->]] R.
  - exists lexeme, [], []. rewrite !app_nil_r. now repeat split.
  - destruct R as (ds & fs & -> & D & F).
    exists ds, ("." :: fs), []. rewrite !app_nil_r. repeat split; auto.
  - destruct R as (ds & fr & ex & -> & D & F & X & _).
    exists ds, fr, ex. now repeat split.
Qed.

Lemma number_loop_reads (fuel : nat) :
  forall (state : nat) (lexeme lexeme' : list ascii) (s s' : Lexer),
    number_loop fuel state lexeme s = Return lexeme' s' ->
    reads state lexeme ->
    number_text lexeme'.
Proof.
  induction fuel as [|fuel IH]; intros state lexeme lexeme' s s' E R;
    [discriminate|].
  cbn [number_loop] in E. unfold _error in E.
  destruct state as [|[|[|[|[|[|state]]]]]]; [| | | | | |destruct R];
    (destruct (current_char s) as [c|] eqn:C;
     cbn [and_isdigit and_lower_is_e is_char take] in E;
     repeat match type of E with
            | context [if ?b then _ else _] => destruct b eqn:?
            end;
     try discriminate E;
     try (injection E as <- <-;
          refine (reads_number_text _ _ _ R); auto);
     try (eapply IH; [exact E|];
          eapply reads_step; [exact R | simpl; assumption])).
Qed.

(** ** What a call can return, from any state *)

Lemma reserved_keyword_word (key : list N) (t : TokenType) :
  dict_get RESERVED_KEYWORDS key = Some t ->
  is_word t = true /\ t <> ID /\ t <> NUM.
Proof.
  unfold RESERVED_KEYWORDS, reserved_words. cbn [map fst snd dict_get].
  repeat match goal with
         | |- context [if ?b then _ else _] => destruct b
         end;
    intros [= <-]; repeat split; discriminate.
Qed.

Lemma single_char_token_other (c : ascii) (t : TokenType) :
  single_char_tokens c = Some t -> is_word t = false /\ t <> NUM.
Proof.
  unfold single_char_tokens.
  repeat match goal with
         | |- context [if ?b then _ else _] => destruct b
         end;
    intros [= <-]; split; (reflexivity || discriminate).
Qed.

Lemma token_loop_return (fuel : nat) :
  forall (s s' : Lexer) (t : Token),
    token_loop fuel s = Return t s' ->
    tipo t <> EOF ->
    exists f s0, recognise f s0 = Return t s'.
Proof.
  induction fuel as [|fuel IH]; intros s s' t E NE; [discriminate|].
  cbn [token_loop] in E.
  destruct (current_char s) as [c|].
  - destruct (char_in c [" "; tab; newline]).
    + destruct (_skip_whitespace fuel s) as [u s1| |]; try discriminate.
      now apply (IH s1).
    + destruct (char_in c ["{"; "("]); [|eauto].
      destruct (_skip_comment fuel s) as [[] s1| |]; try discriminate;
        [now apply (IH s1) | eauto].
  - injection E as <- <-. now elim NE.
Qed.

Lemma recognise_return_num (f : nat) (s0 s' : Lexer) (t : Token) :
  recognise f s0 = Return t s' ->
  tipo t = NUM ->
  exists c lexeme,
    current_char s0 = Some c /\ isdigit c = true
    /\ number_loop f 0 [] s0 = Return lexeme s'
    /\ t = mkToken NUM lexeme (line s0).
Proof.
  unfold recognise, _id_or_keyword, _number, _string_literal, two_char, _error.
  destruct (current_char s0) as [c|]; [|discriminate].
  destruct (isalpha c).
  { destruct (id_loop f [] s0) as [lexeme s1| |]; try discriminate.
    destruct (dict_get RESERVED_KEYWORDS (upper lexeme)) as [k|] eqn:D;
      intros [= <- _] T; simpl in T; [|discriminate].
    now destruct (reserved_keyword_word _ _ D) as (_ & _ & NN). }
  destruct (isdigit c) eqn:D.
  { destruct (number_loop f 0 [] s0) as [lexeme s1| |]; try discriminate.
    intros [= <- <-] _. exists c, lexeme. repeat split; auto. }
  destruct (Ascii.eqb c quote).
  { destruct (string_loop f [] (_advance s0)) as [content s1| |];
      try discriminate.
    destruct (List.length content =? 1); intros [= <- _]; discriminate. }
  repeat match goal with
         | |- context [if ?b then _ else _] =>
             destruct b; [intros [= <- _]; discriminate|]
         end.
  destruct (single_char_tokens c) as [k|] eqn:S; [|discriminate].
  intros [= <- _] T. simpl in T.
  now destruct (single_char_token_other _ _ S) as (_ & NN).
Qed.

Lemma recognise_return_word (f : nat) (s0 s' : Lexer) (t : Token) :
  recognise f s0 = Return t s' ->
  is_word (tipo t) = true ->
  exists c lexeme,
    current_char s0 = Some c /\ isalpha c = true
    /\ id_loop f [] s0 = Return lexeme s'
    /\ t = mkToken (word_kind lexeme) lexeme (line s0).
Proof.
  unfold recognise, _id_or_keyword, _number, _string_literal, two_char, _error.
  destruct (current_char s0) as [c|]; [|discriminate].
  destruct (isalpha c) eqn:A.
  { destruct (id_loop f [] s0) as [lexeme s1| |]; try discriminate.
    unfold word_kind.
    destruct (dict_get RESERVED_KEYWORDS (upper lexeme)) as [k|] eqn:Dk;
      intros [= <- <-] _; exists c, lexeme; rewrite Dk; repeat split; auto. }
  destruct (isdigit c).
  { destruct (number_loop f 0 [] s0) as [lexeme s1| |]; try discriminate.
    intros [= <- _]. discriminate. }
  destruct (Ascii.eqb c quote).
  { destruct (string_loop f [] (_advance s0)) as [content s1| |];
      try discriminate.
    destruct (List.length content =? 1); intros [= <- _]; discriminate. }
  repeat match goal with
         | |- context [if ?b then _ else _] =>
             destruct b; [intros [= <- _]; discriminate|]
         end.
  destruct (single_char_tokens c) as [k|] eqn:S; [|discriminate].
  intros [= <- _] T. simpl in T.
  destruct (single_char_token_other _ _ S) as (NW & _). congruence.
Qed.

Lemma number_loop_stops (fuel : nat) :
  forall (state : nat) (lexeme lexeme' : list ascii) (s s' : Lexer),
    number_loop fuel state lexeme s = Return lexeme' s' ->
    and_isdigit (current_char s') = false.
Proof.
  induction fuel as [|fuel IH]; intros state lexeme lexeme' s s' E;
    [discriminate|].
  cbn [number_loop] in E. unfold _error in E.
  destruct state as [|[|[|[|[|[|state]]]]]];
    try (destruct (current_char s) as [c|] eqn:C);
    repeat match type of E with
           | context [if ?b then _ else _] => destruct b eqn:?
           end;
    try discriminate E;
    try (injection E as <- <-; congruence);
    try (eapply IH; exact E).
Qed.

Lemma id_loop_inv (fuel : nat) :
  forall (lexeme lexeme' : list ascii) (s s' : Lexer),
    id_loop fuel lexeme s = Return lexeme' s' ->
    exists raw,
      lexeme' = lexeme ++ raw
      /\ forallb isalnum raw = true
      /\ stops_at isalnum s' = true
      /\ forall c, current_char s = Some c -> isalnum c = true ->
                   hd_error raw = Some c.
Proof.
  induction fuel as [|fuel IH]; intros lexeme lexeme' s s' E; [discriminate|].
  cbn [id_loop] in E. destruct (current_char s) as [c|] eqn:C.
  - destruct (isalnum c) eqn:A.
    + destruct (IH _ _ _ _ E) as (raw & -> & F & St & _).
      exists (c :: raw). rewrite <- app_assoc. simpl. rewrite A, F.
      repeat split; auto; try now intros c' [= <-].
    + injection E as <- <-. exists []. rewrite app_nil_r.
      unfold stops_at. rewrite C, A. repeat split; try (intros c' [= <-]; congruence).
  - injection E as <- <-. exists []. rewrite app_nil_r.
    unfold stops_at. rewrite C. repeat split; try discriminate.
Qed.

(** X12.  The lexeme of every number token is digits, then nothing or a
    point and digits, then nothing or an exponent; and no digit follows
    the token. *)
Theorem number_token_text (s s' : Lexer) (t : Token) :
  get_next_token s = Return t s' ->
  tipo t = NUM ->
  number_text (lexema t) /\ and_isdigit (current_char s') = false.
Proof.
  intros E T.
  destruct (token_loop_return _ _ _ _ E) as (f & s0 & Rc);
    [rewrite T; discriminate|].
  destruct (recognise_return_num _ _ _ _ Rc T) as (c & lexeme & C & D & L & ->).
  split; [|exact (number_loop_stops _ _ _ _ _ _ L)].
  destruct f as [|f]; [discriminate|].
  cbn [number_loop] in L. rewrite C in L. cbn [and_isdigit take] in L.
  rewrite D in L.
  apply (number_loop_reads _ _ _ _ _ _ L). simpl. now rewrite D.
Qed.

Lemma number_token_text_witness :
  get_next_token (Lexer_init (str "3e+7;")) =
    Return (mkToken NUM (str "3e+7") 1) (cursor (str "3e+7") (str ";"))
  /\ tipo (mkToken NUM (str "3e+7") 1) = NUM
  /\ number_text (lexema (mkToken NUM (str "3e+7") 1))
  /\ and_isdigit (current_char (cursor (str "3e+7") (str ";"))) = false.
Proof.
  split; [reflexivity|]. split; [reflexivity|].
  apply (number_token_text (Lexer_init (str "3e+7;"))); reflexivity.
Defined.

(** *** Numbers cut short *)

Lemma mantissa_run (fuel : nat) (pre lexeme ds fr suf : list ascii) :
  forallb isdigit ds = true ->
  is_fraction fr = true ->
  number_loop (List.length (ds ++ fr) + fuel) 0 lexeme
    (cursor pre (ds ++ fr ++ suf)) =
  number_loop fuel (state_after fr) (lexeme ++ ds ++ fr)
    (cursor (pre ++ ds ++ fr) suf).
Proof.
  intros D F. rewrite length_app, <- Nat.add_assoc.
  rewrite (digits_state 0 ds) by auto.
  destruct fr as [|p fs].
  - simpl. now rewrite !app_nil_r.
  - simpl in F. apply andb_true_iff in F. destruct F as [P F].
    apply Ascii.eqb_eq in P. subst p.
    rewrite (fraction_run _ _ _ fs) by exact F. now rewrite <- !app_assoc.
Qed.

Lemma state_after_cases (fr : list ascii) :
  state_after fr = 0 \/ state_after fr = 2.
Proof. destruct fr; auto. Qed.

(** The result of [_number] is that of its loop, whatever fuel the loop
    is given beyond what it needs. *)
Lemma number_result (pre suf : list ascii) (d : ascii) (f : nat)
  (r : Result (list ascii)) :
  isdigit d = true ->
  number_loop f 0 [] (cursor pre (d :: suf)) = r ->
  r <> OutOfFuel ->
  f <= S (List.length (d :: suf)) ->
  get_next_token (cursor pre (d :: suf)) =
  match r with
  | Return lexeme s1 => Return (mkToken NUM lexeme (1 + count_newlines pre)) s1
  | Raise e s1 => Raise e s1
  | OutOfFuel => OutOfFuel
  end.
Proof.
  intros D E NE Hf. rewrite get_next_token_cursor, (token_loop_digit _ _ _ _ D).
  unfold _number. rewrite (number_loop_fuel f); [|exact Hf|now rewrite E].
  now rewrite E.
Qed.

(** X13.  A number cut short raises, and the error names what was read.
    After the digits, a point that neither a digit nor a second point
    follows; after the digits and the fraction, the letter e followed by a
    character that is no sign and no digit; after a sign of the exponent,
    anything but a digit: each raises the error of a malformed number, and
    leaves the scanner after what was read.  When the text ends with the
    letter e, the call raises the [TypeError] instead. *)
Theorem number_cut_short (pre ds fr rest : list ascii) (e sg : ascii) :
  nonempty_digits ds = true ->
  (ends_run (fun c => isdigit c || Ascii.eqb c ".") rest = true ->
   get_next_token (cursor pre (ds ++ "." :: rest)) =
   Raise (ErroLexico (1 + count_newlines (pre ++ ds ++ ["."]))
                     (DigitoEsperadoAposPonto (ds ++ ["."])))
         (cursor (pre ++ ds ++ ["."]) rest))
  /\ (is_fraction fr = true ->
      Ascii.eqb (lower e) "e" = true ->
      (rest <> [] ->
       ends_run (fun c => isdigit c || char_in c ["+"; "-"]) rest = true ->
       get_next_token (cursor pre (ds ++ fr ++ e :: rest)) =
       Raise (ErroLexico (1 + count_newlines (pre ++ ds ++ fr ++ [e]))
                         (SinalOuDigitoEsperadoAposE (ds ++ fr ++ [e])))
             (cursor (pre ++ ds ++ fr ++ [e]) rest))
      /\ get_next_token (cursor pre (ds ++ fr ++ [e])) =
         Raise TypeError (cursor (pre ++ ds ++ fr ++ [e]) [])
      /\ (char_in sg ["+"; "-"] = true ->
          ends_run isdigit rest = true ->
          get_next_token (cursor pre (ds ++ fr ++ e :: sg :: rest)) =
          Raise (ErroLexico (1 + count_newlines (pre ++ ds ++ fr ++ [e; sg]))
                            (DigitoEsperadoAposSinal (ds ++ fr ++ [e; sg])))
                (cursor (pre ++ ds ++ fr ++ [e; sg]) rest))).
Proof.
  intros D. destruct (nonempty_digits_cons ds D) as (d & ds' & -> & Dd & A).
  assert (Dall : forallb isdigit (d :: ds') = true) by (simpl; now rewrite Dd).
  split; [|intros F M; split; [|split]].
  - intros R.
    assert (L : number_loop (List.length (d :: ds') + 2) 0 []
                  (cursor pre ((d :: ds') ++ "." :: rest)) =
                Raise (ErroLexico (1 + count_newlines (pre ++ (d :: ds') ++ ["."]))
                                  (DigitoEsperadoAposPonto ((d :: ds') ++ ["."])))
                      (cursor (pre ++ (d :: ds') ++ ["."]) rest)).
    { rewrite (digits_state 0 (d :: ds')) by auto.
      number_step. cbn [app].
      assert (P : is_char (hd_error rest) "." = false /\
                  and_isdigit (hd_error rest) = false).
      { destruct rest as [|c rest]; [now split|]. simpl in R.
        apply negb_true_iff, orb_false_iff in R. destruct R. now split. }
      destruct P as (P1 & P2). rewrite P1.
      number_step. cbn [cursor current_char]. rewrite P2. refold_cursor.
      unfold _error. cbn [line cursor]. refold_cursor.
      now rewrite <- !app_assoc. }
    cbn [app].
    rewrite (number_result pre (ds' ++ "." :: rest) d _ _ Dd L);
      [reflexivity|discriminate|].
    simpl. rewrite !length_app. simpl. lia.
  - intros NE R. destruct rest as [|c rest]; [congruence|].
    cbn [ends_run] in R.
    apply negb_true_iff, orb_false_iff in R. destruct R as [R1 R2].
    assert (L : number_loop (List.length ((d :: ds') ++ fr) + 2) 0 []
                  (cursor pre ((d :: ds') ++ fr ++ e :: c :: rest)) =
                Raise (ErroLexico (1 + count_newlines (pre ++ (d :: ds') ++ fr ++ [e]))
                                  (SinalOuDigitoEsperadoAposE ((d :: ds') ++ fr ++ [e])))
                      (cursor (pre ++ (d :: ds') ++ fr ++ [e]) (c :: rest))).
    { rewrite mantissa_run by auto.
      rewrite (marker_step _ _ _ _ _ e (state_after_cases fr) M).
      number_step. rewrite R2, R1. unfold _error. cbn [line cursor].
      refold_cursor. now rewrite <- !app_assoc. }
    cbn [app].
    rewrite (number_result pre (ds' ++ fr ++ e :: c :: rest) d _ _ Dd L);
      [reflexivity|discriminate|].
    simpl. rewrite !length_app. simpl. lia.
  - assert (L : number_loop (List.length ((d :: ds') ++ fr) + 2) 0 []
                  (cursor pre ((d :: ds') ++ fr ++ [e])) =
                Raise TypeError (cursor (pre ++ (d :: ds') ++ fr ++ [e]) [])).
    { rewrite mantissa_run by auto.
      rewrite (marker_step _ _ _ _ _ e (state_after_cases fr) M).
      number_step. now rewrite <- !app_assoc. }
    cbn [app].
    rewrite (number_result pre (ds' ++ fr ++ [e]) d _ _ Dd L);
      [reflexivity|discriminate|].
    simpl. rewrite !length_app. simpl. lia.
  - intros G R.
    assert (L : number_loop (List.length ((d :: ds') ++ fr) + 3) 0 []
                  (cursor pre ((d :: ds') ++ fr ++ e :: sg :: rest)) =
                Raise (ErroLexico (1 + count_newlines (pre ++ (d :: ds') ++ fr ++ [e; sg]))
                                  (DigitoEsperadoAposSinal ((d :: ds') ++ fr ++ [e; sg])))
                      (cursor (pre ++ (d :: ds') ++ fr ++ [e; sg]) rest)).
    { rewrite mantissa_run by auto.
      rewrite (marker_step _ _ _ _ _ e (state_after_cases fr) M).
      number_step. rewrite G. number_step.
      assert (P : and_isdigit (hd_error rest) = false).
      { destruct rest as [|c rest]; [reflexivity|]. simpl in R.
        now apply negb_true_iff in R. }
      cbn [cursor current_char]. rewrite P. refold_cursor.
      unfold _error. cbn [line cursor]. refold_cursor.
      now rewrite <- !app_assoc. }
    cbn [app].
    rewrite (number_result pre (ds' ++ fr ++ e :: sg :: rest) d _ _ Dd L);
      [reflexivity|discriminate|].
    simpl. rewrite !length_app. simpl. lia.
Qed.

Lemma number_cut_short_witness :
  nonempty_digits (str "10") = true
  /\ ends_run (fun c => isdigit c || Ascii.eqb c ".") (str " end") = true
  /\ get_next_token (cursor (str "x:=") (str "10" ++ "." :: str " end")) =
     Raise (ErroLexico (1 + count_newlines (str "x:=" ++ str "10" ++ ["."]))
                       (DigitoEsperadoAposPonto (str "10" ++ ["."])))
           (cursor (str "x:=" ++ str "10" ++ ["."]) (str " end")).
Proof.
  split; [reflexivity|]. split; [reflexivity|].
  apply (proj1 (number_cut_short (str "x:=") (str "10") [] (str " end")
                  "e" "+" eq_refl)).
  reflexivity.
Defined.

(** ** Quoted literals *)

Lemma decode_encode (content rest : list ascii) :
  is_char (hd_error rest) quote = false ->
  decode (encode content ++ quote :: rest) = Some (content, rest).
Proof.
  intros R. induction content as [|c content IH].
  - cbn [encode app decode]. change (Ascii.eqb quote quote) with true.
    cbv iota. destruct rest as [|d rest]; [reflexivity|].
    simpl in R. now rewrite R.
  - cbn [encode]. destruct (Ascii.eqb c quote) eqn:Q.
    + apply Ascii.eqb_eq in Q. subst c. cbn [app decode].
      change (Ascii.eqb quote quote) with true. cbv iota. now rewrite IH.
    + cbn [app decode]. now rewrite Q, IH.
Qed.

Lemma decode_encode_none (content : list ascii) :
  decode (encode content) = None.
Proof.
  induction content as [|c content IH]; [reflexivity|].
  cbn [encode]. destruct (Ascii.eqb c quote) eqn:Q.
  - cbn [decode]. change (Ascii.eqb quote quote) with true. cbv iota.
    now rewrite IH.
  - cbn [decode]. now rewrite Q, IH.
Qed.

Lemma token_loop_quote (fuel : nat) (pre body : list ascii) :
  token_loop (S fuel) (cursor pre (quote :: body)) =
  _string_literal fuel (cursor pre (quote :: body)).
Proof.
  rewrite token_loop_recognise by reflexivity.
  unfold recognise. cbn [cursor current_char hd_error].
  change (if isalpha quote then ?a else ?b) with b.
  change (if isdigit quote then ?a else ?b) with b.
  change (if Ascii.eqb quote quote then ?a else ?b) with a.
  refold_cursor. reflexivity.
Qed.

(** X14.  Any content, newlines and quotes included, written between two
    quotes with each of its quotes doubled, and followed by anything but
    a quote, is scanned back as one literal whose lexeme is that content:
    a [CAR] when the content is one character, a [LITERAL] otherwise. *)
Theorem literal_round_trip (pre content rest : list ascii) :
  is_char (hd_error rest) quote = false ->
  get_next_token (cursor pre (quote :: encode content ++ quote :: rest)) =
  Return (mkToken (if List.length content =? 1 then CAR else LITERAL)
                  content (1 + count_newlines pre))
         (cursor (pre ++ quote :: encode content ++ [quote]) rest).
Proof.
  intros R. rewrite get_next_token_cursor, token_loop_quote.
  unfold _string_literal. rewrite advance_cursor.
  pose proof (string_loop_spec
                (S (List.length (quote :: encode content ++ quote :: rest)))
                (encode content ++ quote :: rest) (pre ++ [quote]) []) as Sp.
  rewrite (decode_encode content rest R) in Sp.
  destruct Sp as (raw & E & L); [simpl; lia|].
  assert (Eraw : raw = encode content ++ [quote]).
  { apply (app_inv_tail rest). now rewrite <- app_assoc. }
  subst raw. rewrite L. cbn [app line cursor].
  rewrite <- !app_assoc.
  now destruct (List.length content =? 1).
Qed.

Lemma literal_round_trip_witness :
  is_char (hd_error (str ";")) quote = false
  /\ get_next_token
       (cursor (str "w(") (quote :: encode (str "it's" ++ [newline]) ++ quote :: str ";")) =
     Return (mkToken (if List.length (str "it's" ++ [newline]) =? 1
                      then CAR else LITERAL)
                     (str "it's" ++ [newline]) (1 + count_newlines (str "w(")))
            (cursor (str "w(" ++ quote :: encode (str "it's" ++ [newline]) ++ [quote])
                    (str ";")).
Proof.
  split; [reflexivity|].
  apply (literal_round_trip (str "w(") (str "it's" ++ [newline]) (str ";")).
  reflexivity.
Defined.

(** X15.  An opening quote followed, up to the end of the text, by
    characters among which every quote is doubled raises the error of the
    unfinished literal, with the line of the end of the text, and leaves
    the scanner there. *)
Theorem literal_unfinished (pre content : list ascii) :
  get_next_token (cursor pre (quote :: encode content)) =
  Raise (ErroLexico (1 + count_newlines (pre ++ quote :: encode content))
                    StringNaoFinalizada)
        (cursor (pre ++ quote :: encode content) []).
Proof.
  rewrite get_next_token_cursor, token_loop_quote.
  unfold _string_literal. rewrite advance_cursor.
  pose proof (string_loop_spec (S (List.length (quote :: encode content)))
                (encode content) (pre ++ [quote]) []) as Sp.
  rewrite decode_encode_none in Sp. rewrite Sp by (simpl; lia).
  now rewrite <- !app_assoc.
Qed.

(** ** Identifiers and reserved words *)

(** X16.  The lexeme of every identifier and of every reserved word
    starts with a letter and goes on with letters and digits, as far as
    they go: no letter or digit follows the token.  Its kind is what the
    table gives the uppercased lexeme, and [ID] when the table has no such
    key. *)
Theorem word_token_text (s s' : Lexer) (t : Token) :
  get_next_token s = Return t s' ->
  is_word (tipo t) = true ->
  (exists c w,
      lexema t = c :: w /\ isalpha c = true /\ forallb isalnum w = true)
  /\ tipo t = word_kind (lexema t)
  /\ stops_at isalnum s' = true.
Proof.
  intros E W.
  destruct (token_loop_return _ _ _ _ E) as (f & s0 & Rc);
    [intros T; rewrite T in W; discriminate|].
  destruct (recognise_return_word _ _ _ _ Rc W) as (c & lexeme & C & A & L & ->).
  destruct (id_loop_inv _ _ _ _ _ L) as (raw & -> & F & St & H).
  specialize (H c C (isalpha_isalnum c A)).
  destruct raw as [|c' w]; [discriminate|]. injection H as ->.
  simpl in F. apply andb_true_iff in F. destruct F as [_ F].
  cbn [tipo lexema app]. repeat split; auto.
  now exists c, w.
Qed.

Lemma word_token_text_witness :
  get_next_token (Lexer_init (str "x1:=2")) =
    Return (mkToken ID (str "x1") 1) (cursor (str "x1") (str ":=2"))
  /\ is_word (tipo (mkToken ID (str "x1") 1)) = true
  /\ (exists c w,
         lexema (mkToken ID (str "x1") 1) = c :: w
         /\ isalpha c = true /\ forallb isalnum w = true)
  /\ tipo (mkToken ID (str "x1") 1) = word_kind (lexema (mkToken ID (str "x1") 1))
  /\ stops_at isalnum (cursor (str "x1") (str ":=2")) = true.
Proof.
  split; [reflexivity|]. split; [reflexivity|].
  apply (word_token_text (Lexer_init (str "x1:=2"))); reflexivity.
Defined.

(** *** Which lexemes the table takes *)

Lemma codepoints_eqb_eq (a : list N) :
  forall b : list N, codepoints_eqb a b = true -> a = b.
Proof.
  induction a as [|x a IH]; intros [|y b] E; try discriminate; [reflexivity|].
  simpl in E. apply andb_true_iff in E. destruct E as [E1 E2].
  apply N.eqb_eq in E1. subst y. now rewrite (IH b E2).
Qed.

Lemma dict_get_in {V : Type} (d : list (list N * V)) (key : list N) (v : V) :
  dict_get d key = Some v -> In (key, v) d.
Proof.
  induction d as [|[k v'] d IH]; [discriminate|]. simpl.
  destruct (codepoints_eqb k key) eqn:E.
  - intros [= ->]. left. now rewrite (codepoints_eqb_eq _ _ E).
  - intros H. right. now apply IH.
Qed.

Lemma upper_char_capital (c : ascii) (n : N) :
  upper_char c = [n] ->
  between 65 90 n = true ->
  c = ascii_of_N n \/ c = ascii_of_N (n + 32).
Proof.
  each_char c; vm_compute; intros E; try discriminate E;
    injection E as <-; intros B; try discriminate B; auto.
Qed.

Lemma upper_char_shape (c : ascii) :
  (exists n, upper_char c = [n]) \/ upper_char c = [83; 83]%N.
Proof.
  unfold upper_char.
  repeat match goal with
         | |- context [if ?b then _ else _] => destruct b
         end; eauto.
Qed.

Lemma ord_inj (a b : ascii) : ord a = ord b -> a = b.
Proof.
  unfold ord. intros E.
  now rewrite <- (ascii_N_embedding a), <- (ascii_N_embedding b), E.
Qed.

Lemma upper_casing (kw : list ascii) :
  forall w : list ascii,
    forallb capital kw = true ->
    double_s kw = false ->
    upper w = map ord kw ->
    casing_of kw w = true.
Proof.
  induction kw as [|k kw IH]; intros w K S U.
  - destruct w as [|c w]; [reflexivity|]. unfold upper in U. simpl in U.
    destruct (upper_char_shape c) as [(n & E)| E]; rewrite E in U;
      discriminate U.
  - destruct w as [|c w]; [discriminate U|].
    simpl in K. apply andb_true_iff in K. destruct K as [Kk Kkw].
    cbn [double_s] in S. apply orb_false_iff in S. destruct S as [S1 S2].
    unfold upper in U. cbn [flat_map map] in U. fold (upper w) in U.
    destruct (upper_char_shape c) as [(n & E)| E]; rewrite E in U.
    + injection U as -> U. cbn [casing_of].
      rewrite (IH w Kkw S2 U), andb_true_r.
      destruct (upper_char_capital c _ E Kk) as [-> | ->].
      * unfold ord. rewrite ascii_N_embedding, Ascii.eqb_refl. reflexivity.
      * assert (L : lower k = ascii_of_N (ord k + 32)).
        { unfold lower. unfold capital in Kk. now rewrite Kk. }
        rewrite <- L, Ascii.eqb_refl. apply orb_true_r.
    + injection U as Uk U.
      destruct kw as [|k2 kw]; [discriminate U|]. injection U as Uk2 _.
      assert (k = "S") by (apply ord_inj; now rewrite <- Uk).
      assert (k2 = "S") by (apply ord_inj; now rewrite <- Uk2).
      subst. discriminate S1.
Qed.

Lemma reserved_word_shape (name : string) (kind : TokenType) :
  In (name, kind) reserved_words ->
  forallb capital (str name) = true
  /\ double_s (str name) = false
  /\ dict_get RESERVED_KEYWORDS (codepoints name) = Some kind.
Proof.
  intros I. simpl in I.
  repeat (destruct I as [[= <- <-]|I]; [now repeat split|]). destruct I.
Qed.

Lemma reserved_keywords_entries (key : list N) (kind : TokenType) :
  In (key, kind) RESERVED_KEYWORDS ->
  exists name, In (name, kind) reserved_words /\ key = codepoints name.
Proof.
  unfold RESERVED_KEYWORDS. rewrite in_map_iff.
  intros ([name k] & [= <- <-] & I). now exists name.
Qed.

Lemma lookup_iff_casing (w : list ascii) (kind : TokenType) :
  dict_get RESERVED_KEYWORDS (upper w) = Some kind
  <-> exists name,
        In (name, kind) reserved_words /\ casing_of (str name) w = true.
Proof.
  split.
  - intros D.
    destruct (reserved_keywords_entries _ _ (dict_get_in _ _ _ D))
      as (name & I & U).
    exists name. split; [exact I|].
    destruct (reserved_word_shape name kind I) as (K & S & _).
    now apply upper_casing.
  - intros (name & I & C).
    destruct (reserved_word_shape name kind I) as (K & _ & D).
    destruct (casing_word (str name) w K C) as (_ & U).
    unfold codepoints in D. now rewrite U.
Qed.

Lemma word_token_kind (s s' : Lexer) (t : Token) :
  get_next_token s = Return t s' ->
  is_word (tipo t) = true ->
  tipo t = word_kind (lexema t).
Proof.
  intros E W.
  destruct (token_loop_return _ _ _ _ E) as (f & s0 & Rc);
    [intros T; rewrite T in W; discriminate|].
  now destruct (recognise_return_word _ _ _ _ Rc W) as (c & lexeme & _ & _ & _ & ->).
Qed.

(** X17.  On texts of the range U+0000..U+00FF, the table takes a lexeme,
    uppercased, exactly when the lexeme is one of the nine reserved words
    with each letter in either case, and gives it the kind of that word.
    So the lexeme of an [ID] token is never a reserved word in any
    casing. *)
Theorem reserved_word_iff_casing :
  (forall (w : list ascii) (kind : TokenType),
      dict_get RESERVED_KEYWORDS (upper w) = Some kind
      <-> exists name,
            In (name, kind) reserved_words /\ casing_of (str name) w = true)
  /\ forall (s s' : Lexer) (t : Token),
       get_next_token s = Return t s' ->
       tipo t = ID ->
       forall (name : string) (kind : TokenType),
         In (name, kind) reserved_words ->
         casing_of (str name) (lexema t) = false.
Proof.
  split; [exact lookup_iff_casing|].
  intros s s' t E T name kind I.
  assert (W : is_word (tipo t) = true) by now rewrite T.
  pose proof (word_token_kind s s' t E W) as K. rewrite T in K.
  destruct (casing_of (str name) (lexema t)) eqn:C; [|reflexivity].
  assert (D : dict_get RESERVED_KEYWORDS (upper (lexema t)) = Some kind).
  { apply lookup_iff_casing. now exists name. }
  unfold word_kind in K. rewrite D in K.
  destruct (reserved_keyword_word _ _ D) as (_ & NI & _). congruence.
Qed.

Lemma reserved_word_iff_casing_witness :
  get_next_token (Lexer_init (str "ende")) =
    Return (mkToken ID (str "ende") 1) (cursor (str "ende") [])
  /\ tipo (mkToken ID (str "ende") 1) = ID
  /\ In ("END"%string, END) reserved_words
  /\ casing_of (str "END") (lexema (mkToken ID (str "ende") 1)) = false.
Proof.
  split; [reflexivity|]. split; [reflexivity|]. split; [simpl; auto|].
  apply (proj2 reserved_word_iff_casing (Lexer_init (str "ende"))
           (cursor (str "ende") []) (mkToken ID (str "ende") 1)
           eq_refl eq_refl "END"%string END).
  simpl. auto.
Defined.

(** ** Operators and punctuation *)

(** X18.  The relational operators at any place of a text: [<>], [<=] and
    [>=] are one token each; [<] that neither [>] nor [=] follows, [>]
    that no [=] follows, and [=] whatever follows, are tokens of one
    character.  So [=>], [=<] and [==] are two tokens. *)
Theorem relational_operators (pre suf : list ascii) :
  get_next_token (cursor pre ("<" :: ">" :: suf)) =
    Return (mkToken OPREL (str "<>") (1 + count_newlines pre))
           (cursor (pre ++ str "<>") suf)
  /\ get_next_token (cursor pre ("<" :: "=" :: suf)) =
       Return (mkToken OPREL (str "<=") (1 + count_newlines pre))
              (cursor (pre ++ str "<=") suf)
  /\ get_next_token (cursor pre (">" :: "=" :: suf)) =
       Return (mkToken OPREL (str ">=") (1 + count_newlines pre))
              (cursor (pre ++ str ">=") suf)
  /\ (is_char (hd_error suf) ">" = false ->
      is_char (hd_error suf) "=" = false ->
      get_next_token (cursor pre ("<" :: suf)) =
      Return (mkToken OPREL (str "<") (1 + count_newlines pre))
             (cursor (pre ++ str "<") suf))
  /\ (is_char (hd_error suf) "=" = false ->
      get_next_token (cursor pre (">" :: suf)) =
      Return (mkToken OPREL (str ">") (1 + count_newlines pre))
             (cursor (pre ++ str ">") suf))
  /\ get_next_token (cursor pre ("=" :: suf)) =
     Return (mkToken OPREL (str "=") (1 + count_newlines pre))
            (cursor (pre ++ str "=") suf).
Proof.
  split.
  { rewrite get_next_token_cursor, token_loop_recognise, recognise_plain
      by reflexivity.
    cbn [hd_error is_char Ascii.eqb Bool.eqb andb]. unfold two_char.
    rewrite !advance_cursor, <- app_assoc. reflexivity. }
  split.
  { rewrite get_next_token_cursor, token_loop_recognise, recognise_plain
      by reflexivity.
    cbn [hd_error is_char Ascii.eqb Bool.eqb andb]. unfold two_char.
    rewrite !advance_cursor, <- app_assoc. reflexivity. }
  split.
  { rewrite get_next_token_cursor, token_loop_recognise, recognise_plain
      by reflexivity.
    cbn [hd_error is_char Ascii.eqb Bool.eqb andb]. unfold two_char.
    rewrite !advance_cursor, <- app_assoc. reflexivity. }
  split; [|split].
  - intros H1 H2. apply lone_char_token; try reflexivity; simpl; assumption.
  - intros H. apply lone_char_token; try reflexivity; simpl; assumption.
  - apply lone_char_token; reflexivity.
Qed.

Lemma relational_operators_witness :
  is_char (hd_error (str " b")) ">" = false
  /\ is_char (hd_error (str " b")) "=" = false
  /\ get_next_token (cursor (str "a") ("<" :: str " b")) =
     Return (mkToken OPREL (str "<") (1 + count_newlines (str "a")))
            (cursor (str "a" ++ str "<") (str " b")).
Proof.
  split; [reflexivity|]. split; [reflexivity|].
  apply (proj1 (proj2 (proj2 (proj2 (relational_operators (str "a") (str " b"))))));
    reflexivity.
Defined.

(** X19.  The signs [+] and [-] are tokens [OPSUMA], [*] and [/] tokens
    [OPMULT], the semicolon a [PONTO_VIRG], the comma a [VIRGULA], the
    point a [PONTO], the closing parenthesis a [FECHA_PAR] and the
    brackets [ABRE_COL] and [FECHA_COL]: each a token of one character
    wherever a token starts, whatever follows it.  So a point before
    digits is a token of its own and not the start of a number. *)
Theorem punctuation_stands_alone (pre suf : list ascii) (c : ascii)
  (t : TokenType) :
  In (c, t) [("+", OPSUMA); ("-", OPSUMA); ("*", OPMULT); ("/", OPMULT);
             (";", PONTO_VIRG); (",", VIRGULA); (".", PONTO);
             (")", FECHA_PAR); ("[", ABRE_COL); ("]", FECHA_COL)] ->
  get_next_token (cursor pre (c :: suf)) =
  Return (mkToken t [c] (1 + count_newlines pre)) (cursor (pre ++ [c]) suf).
Proof.
  intros I. simpl in I.
  repeat (destruct I as [[= <- <-]|I];
          [apply lone_char_token; reflexivity|]).
  destruct I.
Qed.

Lemma punctuation_stands_alone_witness :
  get_next_token (cursor (str "x:=") ("+" :: str "5")) =
    Return (mkToken OPSUMA ["+"] (1 + count_newlines (str "x:=")))
           (cursor (str "x:=" ++ ["+"]) (str "5"))
  /\ get_next_token (cursor (str "x:=") ("-" :: str "5")) =
     Return (mkToken OPSUMA ["-"] (1 + count_newlines (str "x:=")))
            (cursor (str "x:=" ++ ["-"]) (str "5"))
  /\ get_next_token (cursor (str "a") ("*" :: str ")")) =
     Return (mkToken OPMULT ["*"] (1 + count_newlines (str "a")))
            (cursor (str "a" ++ ["*"]) (str ")"))
  /\ get_next_token (cursor (str "a") ("/" :: str "b")) =
     Return (mkToken OPMULT ["/"] (1 + count_newlines (str "a")))
            (cursor (str "a" ++ ["/"]) (str "b"))
  /\ get_next_token (cursor (str "a") (";" :: str "b")) =
     Return (mkToken PONTO_VIRG [";"] (1 + count_newlines (str "a")))
            (cursor (str "a" ++ [";"]) (str "b"))
  /\ get_next_token (cursor (str "a") ("," :: str "b")) =
     Return (mkToken VIRGULA [","] (1 + count_newlines (str "a")))
            (cursor (str "a" ++ [","]) (str "b"))
  /\ get_next_token (cursor (str "x:=") ("." :: str "5")) =
     Return (mkToken PONTO ["."] (1 + count_newlines (str "x:=")))
            (cursor (str "x:=" ++ ["."]) (str "5"))
  /\ get_next_token (cursor (str "(a") (")" :: str "=")) =
     Return (mkToken FECHA_PAR [")"] (1 + count_newlines (str "(a")))
            (cursor (str "(a" ++ [")"]) (str "="))
  /\ get_next_token (cursor (str "a") ("[" :: str "1]")) =
     Return (mkToken ABRE_COL ["["] (1 + count_newlines (str "a")))
            (cursor (str "a" ++ ["["]) (str "1]"))
  /\ get_next_token (cursor (str "a[1") ("]" :: str ":=")) =
     Return (mkToken FECHA_COL ["]"] (1 + count_newlines (str "a[1")))
            (cursor (str "a[1" ++ ["]"]) (str ":=")).
Proof.
  repeat match goal with
         | |- _ /\ _ => split
         end;
    (apply punctuation_stands_alone; simpl; auto 15).
Defined.
